(** * exul: synthesized X11 input, embedded from [exul/utilities.py]

    The module talks to an X server through python-xlib.  Every function of
    the input-simulation surface is embedded here as a computation over an
    explicit log of what the program asks of the server and of the clock:
    [SendEvent] requests, queue flushes and sleeps, in program order.
    Python exceptions are an explicit [Raise] outcome; among them is the
    [struct.error] that python-xlib raises when an event is built from a
    value that does not fit its field.

    The python-xlib entry points that answer questions (the keysym table,
    the keyboard mapping of the connection, atom and property requests) are
    not part of the repository; they are variables of the section that
    holds the functions using them. *)

From Stdlib Require Import ZArith List String Ascii Bool Lia.
Import ListNotations.
Open Scope string_scope.
Open Scope list_scope.
Open Scope Z_scope.

(** ** Python values the code handles *)

(** A raised Python exception: its class and its message. *)
Record exn : Type := mkExn { exn_class : string; exn_msg : string }.

Inductive result (A : Type) : Type :=
| Ok (a : A)
| Raise (e : exn).
Arguments Ok {A} a.
Arguments Raise {A} e.

(** A window handle ([Xlib.xobject.drawable.Window]): the server-side id and
    the display connection the handle was obtained from. *)
Record Window : Type := mkWindow { window_id : Z; window_display : Z }.

(** Constants of [Xlib.X] used by the module. *)
Module X.
Definition KeyPress : Z := 2.
Definition KeyRelease : Z := 3.
Definition ButtonPress : Z := 4.
Definition ButtonRelease : Z := 5.
Definition MotionNotify : Z := 6.
Definition NONE : Z := 0.
Definition CurrentTime : Z := 0.
Definition NotifyNormal : Z := 0.
Definition AnyPropertyType : Z := 0.
End X.

(** The event classes of [Xlib.protocol.event] the module instantiates. *)
Module event.
Inductive class : Type :=
| KeyPress | KeyRelease | ButtonPress | ButtonRelease | MotionNotify.

(** The type code each class carries ([_code]). *)
Definition code (c : class) : Z :=
  match c with
  | KeyPress => X.KeyPress
  | KeyRelease => X.KeyRelease
  | ButtonPress => X.ButtonPress
  | ButtonRelease => X.ButtonRelease
  | MotionNotify => X.MotionNotify
  end.
End event.

(** The event record built by [send_event]: the class that is instantiated
    and the keyword arguments it is given. *)
Record Event : Type := mkEvent {
  ev_class : event.class;
  ev_type : Z;
  ev_detail : Z;
  ev_time : Z;
  ev_root : Z;
  ev_window : Window;
  ev_child : Z;
  ev_root_x : Z;
  ev_root_y : Z;
  ev_event_x : Z;
  ev_event_y : Z;
  ev_state : Z;
  ev_same_screen : Z
}.

(** The wire formats of the fields of these events: an event is packed
    when it is built, and a value that does not fit its field makes the
    constructor raise [struct.error]. *)
Definition fits_card8 (v : Z) : bool := (0 <=? v) && (v <=? 255).
Definition fits_card16 (v : Z) : bool := (0 <=? v) && (v <=? 65535).
Definition fits_card32 (v : Z) : bool := (0 <=? v) && (v <=? 4294967295).
Definition fits_int16 (v : Z) : bool := (-32768 <=? v) && (v <=? 32767).

(** The exception of the packing; the text of its message depends on the
    Python version and is left empty. *)
Definition struct_error : exn := mkExn "struct.error" "".

(** [event_class(type=..., detail=..., time=..., root=..., window=...,
    child=..., root_x=..., root_y=..., event_x=..., event_y=..., state=...,
    same_screen=...)]: the constructor of python-xlib sets the type to the
    code of the class, whatever [type] is passed, and packs the fields:
    detail and same_screen as CARD8, time, root and child as CARD32, the four
    coordinates as INT16, state as CARD16.  The window handle is one the
    library returned, so its id fits. *)
Definition new_event (event_class : event.class)
    (type detail time root : Z) (window : Window)
    (child root_x root_y event_x event_y state same_screen : Z) : result Event :=
  if fits_card8 detail && fits_card32 time && fits_card32 root &&
     fits_card32 child && fits_int16 root_x && fits_int16 root_y &&
     fits_int16 event_x && fits_int16 event_y && fits_card16 state &&
     fits_card8 same_screen
  then Ok {| ev_class := event_class;
             ev_type := event.code event_class;
             ev_detail := detail;
             ev_time := time;
             ev_root := root;
             ev_window := window;
             ev_child := child;
             ev_root_x := root_x;
             ev_root_y := root_y;
             ev_event_x := event_x;
             ev_event_y := event_y;
             ev_state := state;
             ev_same_screen := same_screen |}
  else Raise struct_error.

(** ** The log and the computations over it *)

(** Durations are in milliseconds (the source writes seconds: 0.024). *)
Inductive action : Type :=
| SendEvent (w : Window) (e : Event)   (* window.send_event(e) *)
| Flush (d : Z)                        (* window.display.flush() *)
| Sleep (ms : Z).                      (* time.sleep *)

Abbreviation log := (list action).

(** A statement or call of the program: from the log so far to an outcome
    and the log afterwards. *)
Definition M (A : Type) : Type := log -> result A * log.

Definition ret {A} (a : A) : M A := fun t => (Ok a, t).

Definition raise {A} (e : exn) : M A := fun t => (Raise e, t).

Definition bind {A B} (m : M A) (k : A -> M B) : M B :=
  fun t => match m t with
           | (Ok a, t') => k a t'
           | (Raise e, t') => (Raise e, t')
           end.

Definition emit (a : action) : M unit := fun t => (Ok tt, t ++ [a]).

(** A call that answers or raises without asking anything of the server. *)
Definition lift {A} (r : result A) : M A := fun t => (r, t).

Definition rbind {A B} (r : result A) (k : A -> result B) : result B :=
  match r with
  | Ok a => k a
  | Raise e => Raise e
  end.

Declare Scope exec_scope.
Delimit Scope exec_scope with exec.
Declare Scope result_scope.
Delimit Scope result_scope with res.

Notation "x <- c ;; k" := (bind c (fun x => k))
  (at level 100, c at next level, right associativity) : exec_scope.
Notation "c ;; k" := (bind c (fun _ => k))
  (at level 100, right associativity) : exec_scope.
Notation "x <- c ;; k" := (rbind c (fun x => k))
  (at level 100, c at next level, right associativity) : result_scope.

(** [for x in xs: body(x)]; the value of the body, an expression statement,
    is dropped. *)
Fixpoint for_each {A B} (xs : list A) (body : A -> M B) : M unit :=
  match xs with
  | [] => ret tt
  | x :: rest => (body x ;; for_each rest body)%exec
  end.

(** [range(n)]: empty when [n <= 0]. *)
Definition range (n : Z) : list Z := map Z.of_nat (seq 0 (Z.to_nat n)).

(** The events sent, in order, among the actions of a log. *)
Fixpoint sent_events (t : log) : list Event :=
  match t with
  | [] => []
  | SendEvent _ e :: rest => e :: sent_events rest
  | _ :: rest => sent_events rest
  end.

Definition sleep (ms : Z) : M unit := emit (Sleep ms).

(** ** Module constants *)

Definition KEY_EVENT_INTERVAL : Z := 24.
Definition MOUSE_HELD_DURATION : Z := 24.

Definition MOUSE_LEFT : Z := 1.
Definition MOUSE_RIGHT : Z := 2.
Definition MOUSE_SCROLL_UP : Z := 4.
Definition MOUSE_SCROLL_DOWN : Z := 5.

(** ** send_event: the primary window event issuer *)

Definition send_event (window : Window) (event_class : event.class)
    (event_type keycode x y modifiers : Z) : M unit :=
  (e <- lift (new_event event_class
                        event_type       (* type *)
                        keycode          (* detail *)
                        X.CurrentTime    (* time *)
                        X.NONE           (* root *)
                        window           (* window *)
                        X.NONE           (* child *)
                        0 0              (* root_x, root_y *)
                        x y              (* event_x, event_y *)
                        modifiers        (* state *)
                        1) ;;            (* same_screen *)
   emit (SendEvent window e) ;;
   emit (Flush (window_display window)))%exec.

(** ** General mouse functions (x, y given; modifiers left at the default 0) *)

Definition mouse_down (window : Window) (x y code : Z) : M unit :=
  send_event window event.ButtonPress X.ButtonPress code x y 0.

Definition mouse_move (window : Window) (x y : Z) : M unit :=
  send_event window event.MotionNotify X.MotionNotify X.NotifyNormal x y 0.

Definition mouse_up (window : Window) (x y code : Z) : M unit :=
  send_event window event.ButtonRelease X.ButtonRelease code x y 0.

Definition click (window : Window) (x y code : Z) : M Z :=
  (mouse_move window x y ;;
   mouse_down window x y code ;;
   sleep MOUSE_HELD_DURATION ;;
   mouse_up window x y code ;;
   ret code)%exec.

Definition click_left (window : Window) (x y : Z) : M Z :=
  click window x y MOUSE_LEFT.

Definition click_right (window : Window) (x y : Z) : M Z :=
  click window x y MOUSE_RIGHT.

Definition scroll_down (window : Window) (x y repeat : Z) : M Z :=
  (mouse_move window x y ;;
   for_each (range repeat) (fun _ => click window x y MOUSE_SCROLL_DOWN) ;;
   ret repeat)%exec.

Definition scroll_up (window : Window) (x y repeat : Z) : M Z :=
  (mouse_move window x y ;;
   for_each (range repeat) (fun _ => click window x y MOUSE_SCROLL_UP) ;;
   ret repeat)%exec.

(** ** Key events (x, y left at the default 0) *)

Definition key_press (window : Window) (keycode modifiers : Z) : M unit :=
  send_event window event.KeyPress X.KeyPress keycode 0 0 modifiers.

Definition key_release (window : Window) (keycode modifiers : Z) : M unit :=
  send_event window event.KeyRelease X.KeyRelease keycode 0 0 modifiers.

(** ** Python string operations used by the key functions *)

(** [c in s] for a one-character [c]. *)
Fixpoint contains_char (c : ascii) (s : string) : bool :=
  match s with
  | EmptyString => false
  | String d rest => Ascii.eqb d c || contains_char c rest
  end.

(** [s.split(sep)] for a one-character separator: one more token than there
    are separators, empty tokens kept. *)
Fixpoint split (sep : ascii) (s : string) : list string :=
  match s with
  | EmptyString => [EmptyString]
  | String c rest =>
      if Ascii.eqb c sep then EmptyString :: split sep rest
      else match split sep rest with
           | tok :: toks => String c tok :: toks
           | [] => [String c EmptyString]
           end
  end.

(** [sep.join(toks)] *)
Fixpoint join (sep : ascii) (toks : list string) : string :=
  match toks with
  | [] => EmptyString
  | [tok] => tok
  | tok :: rest => String.append tok (String sep (join sep rest))
  end.

Definition upper (c : ascii) : ascii :=
  let n := nat_of_ascii c in
  if (Nat.leb 97 n && Nat.leb n 122)%bool then ascii_of_nat (n - 32) else c.

Definition lower (c : ascii) : ascii :=
  let n := nat_of_ascii c in
  if (Nat.leb 65 n && Nat.leb n 90)%bool then ascii_of_nat (n + 32) else c.

Fixpoint lowercase (s : string) : string :=
  match s with
  | EmptyString => EmptyString
  | String c rest => String (lower c) (lowercase rest)
  end.

(** [s.capitalize()]: first character upper-cased, the rest lower-cased. *)
Definition capitalize (s : string) : string :=
  match s with
  | EmptyString => EmptyString
  | String c rest => String (upper c) (lowercase rest)
  end.

(** [x in (a, b, ...)] on strings. *)
Fixpoint in_tuple (x : string) (xs : list string) : bool :=
  match xs with
  | [] => false
  | y :: rest => String.eqb x y || in_tuple x rest
  end.

(** [needle in haystack] on strings. *)
Fixpoint is_prefix (p s : string) : bool :=
  match p, s with
  | EmptyString, _ => true
  | String a p', String b s' => Ascii.eqb a b && is_prefix p' s'
  | String _ _, EmptyString => false
  end.

Fixpoint is_substring (needle haystack : string) : bool :=
  is_prefix needle haystack ||
  match haystack with
  | EmptyString => false
  | String _ rest => is_substring needle rest
  end.

(** ** Key functions *)

Section Keys.

(** [Xlib.XK.string_to_keysym]: the keysym of a name, [0] (NoSymbol) when
    the name is not in the keysym tables. *)
Variable string_to_keysym : string -> Z.

(** [DISPLAY.keysym_to_keycode]: the keycode bound to a keysym in the
    keyboard mapping of the global display connection. *)
Variable keysym_to_keycode : Z -> Z.

(** The name looked up for [character], after the two convenient
    conversions at the head of [get_key_code]. *)
Definition converted (character : string) : string :=
  if String.eqb character "Ctrl" then "Control"
  else if String.eqb character "Enter" then "Return"
  else character.

Definition get_key_code (character : string) : result Z :=
  let character := converted character in
  let sym := string_to_keysym character in
  if Z.eqb sym 0 then
    Raise (mkExn "Exception"
             (String.append "NoSymbol found for character: " character))
  else
    let code := keysym_to_keycode sym in
    Ok code.

(** The keycode [get_key_code] answers for a name whose lookup succeeds. *)
Definition key_code_of (name : string) : Z :=
  keysym_to_keycode (string_to_keysym (converted name)).

(** The loop of [_parse_key_string] over the parts, with the two lists it
    appends to. *)
Fixpoint parse_parts (parts : list string) (primaries mods : list Z)
    : result (list Z * list Z) :=
  match parts with
  | [] => Ok (primaries, mods)
  | part :: rest =>
      if in_tuple part ["alt"; "control"; "shift"] then
        (code <- get_key_code (String.append (capitalize part) "_L") ;;
         parse_parts rest primaries (mods ++ [code]))%res
      else
        (code <- get_key_code part ;;
         parse_parts rest (primaries ++ [code]) mods)%res
  end.

Definition _parse_key_string (key : string) : result (list Z * list Z) :=
  if (negb (contains_char "+" key) || String.eqb key "+")%bool then
    (code <- get_key_code key ;; Ok ([code], []))%res
  else
    parse_parts (split "+" key) [] [].

Definition send_key (window : Window) (key : string) (repeat modifiers : Z)
    : M unit :=
  (pm <- lift (_parse_key_string key) ;;
   let (primaries, mods) := pm : list Z * list Z in
   for_each mods (fun keycode =>
     key_press window keycode modifiers ;;
     sleep KEY_EVENT_INTERVAL) ;;
   for_each (range repeat) (fun _ =>
     for_each primaries (fun keycode =>
       key_press window keycode modifiers ;;
       sleep KEY_EVENT_INTERVAL ;;
       key_release window keycode modifiers ;;
       sleep KEY_EVENT_INTERVAL)) ;;
   for_each (rev mods) (fun keycode =>
     key_release window keycode modifiers ;;
     sleep KEY_EVENT_INTERVAL))%exec.

(** [send_key(window, key)]: [repeat] and [modifiers] at their defaults. *)
Definition send_keys (window : Window) (keys : list string) : M Z :=
  (for_each keys (fun key => send_key window key 1 0) ;;
   ret (Z.of_nat (List.length keys)))%exec.

(** *** The key-hold scope *)

(** An instance of [KeyPressed]: its two attributes. *)
Record KeyPressed : Type := mkKeyPressed { self_window : Window; self_code : Z }.

Definition KeyPressed__init__ (window : Window) (key : string) : result KeyPressed :=
  (code <- get_key_code key ;;
   Ok {| self_window := window; self_code := code |})%res.

Definition KeyPressed__enter__ (self : KeyPressed) : M unit :=
  key_press (self_window self) (self_code self) 0.

(** No return statement: [None], which Python reads as "do not suppress". *)
Definition KeyPressed__exit__ (self : KeyPressed) (exc : option exn) : M bool :=
  (key_release (self_window self) (self_code self) 0 ;; ret false)%exec.

(** [with cm: body], for a context manager given by its [__enter__] and
    [__exit__]: the exit runs once after the body, with the exception the
    body raised if any; that exception is raised again unless the exit
    answered true. *)
Definition with_stmt (enter : M unit) (exit : option exn -> M bool)
    (body : M unit) : M unit :=
  (enter ;;
   fun t =>
     match body t with
     | (Ok _, t1) => (exit None ;; ret tt) t1
     | (Raise e, t1) =>
         (suppress <- exit (Some e) ;;
          if suppress : bool then ret tt else raise e) t1
     end)%exec.

(** [with KeyPressed(window, key): body] *)
Definition with_KeyPressed (window : Window) (key : string) (body : M unit)
    : M unit :=
  (cm <- lift (KeyPressed__init__ window key) ;;
   with_stmt (KeyPressed__enter__ cm) (KeyPressed__exit__ cm) body)%exec.

End Keys.

(** ** Other *)

(** [lst[i]] on a Python list. *)
Definition getitem {A} (lst : list A) (i : Z) : result A :=
  let n := Z.of_nat (List.length lst) in
  let j := if i <? 0 then i + n else i in
  match (if (j <? 0) || (n <=? j) then None else nth_error lst (Z.to_nat j)) with
  | Some a => Ok a
  | None => Raise (mkExn "IndexError" "list index out of range")
  end.

(** The reply to a GetProperty request, as [Window.get_property] hands it
    over: [format] is 8, 16 or 32, and [value] holds the items, as a byte
    string when the format is 8 and as an array otherwise. *)
Record GetProperty : Type := mkGetProperty {
  property_type : Z;
  format : Z;
  value : list Z
}.

(** [obj.value.tolist()] where [obj] may be [None]: a byte string has no
    [tolist]. *)
Definition getattr_value (obj : option GetProperty) : result (list Z) :=
  match obj with
  | Some r =>
      if format r =? 8 then
        Raise (mkExn "AttributeError" "'bytes' object has no attribute 'tolist'")
      else Ok (value r)
  | None =>
      Raise (mkExn "AttributeError" "'NoneType' object has no attribute 'value'")
  end.

Section Properties.

(** [InternAtom(display, name, only_if_exists)]: the [atom] field of the
    reply, or the error the request raised. *)
Variable InternAtom : Z -> string -> Z -> result Z.

(** [window.get_property(property, type, offset, length)]: a reply, [None],
    or the error the request raised. *)
Variable get_property : Window -> Z -> Z -> Z -> Z -> result (option GetProperty).

Definition get_window_pid (window : Window) : result Z :=
  (atom <- InternAtom (window_display window) "_NET_WM_PID" 1 ;;
   pid <- get_property window atom X.AnyPropertyType 0 10 ;;
   lst <- getattr_value pid ;;
   getitem lst 0)%res.

End Properties.

(** ** The events the composers are expected to send *)

Definition motion_event (w : Window) (x y : Z) : Event :=
  mkEvent event.MotionNotify X.MotionNotify X.NotifyNormal
          X.CurrentTime X.NONE w X.NONE 0 0 x y 0 1.

Definition button_press_event (w : Window) (x y code : Z) : Event :=
  mkEvent event.ButtonPress X.ButtonPress code
          X.CurrentTime X.NONE w X.NONE 0 0 x y 0 1.

Definition button_release_event (w : Window) (x y code : Z) : Event :=
  mkEvent event.ButtonRelease X.ButtonRelease code
          X.CurrentTime X.NONE w X.NONE 0 0 x y 0 1.

Definition key_press_event (w : Window) (keycode modifiers : Z) : Event :=
  mkEvent event.KeyPress X.KeyPress keycode
          X.CurrentTime X.NONE w X.NONE 0 0 0 0 modifiers 1.

Definition key_release_event (w : Window) (keycode modifiers : Z) : Event :=
  mkEvent event.KeyRelease X.KeyRelease keycode
          X.CurrentTime X.NONE w X.NONE 0 0 0 0 modifiers 1.

(** One event sent and the queue flushed: what a call of [send_event] adds
    to the log. *)
Definition sent (w : Window) (e : Event) : log :=
  [SendEvent w e; Flush (window_display w)].

Definition click_log (w : Window) (x y code : Z) : log :=
  sent w (motion_event w x y) ++
  sent w (button_press_event w x y code) ++
  [Sleep MOUSE_HELD_DURATION] ++
  sent w (button_release_event w x y code).

Definition tap_log (w : Window) (modifiers keycode : Z) : log :=
  sent w (key_press_event w keycode modifiers) ++ [Sleep KEY_EVENT_INTERVAL] ++
  sent w (key_release_event w keycode modifiers) ++ [Sleep KEY_EVENT_INTERVAL].

Definition hold_log (w : Window) (modifiers keycode : Z) : log :=
  sent w (key_press_event w keycode modifiers) ++ [Sleep KEY_EVENT_INTERVAL].

Definition unhold_log (w : Window) (modifiers keycode : Z) : log :=
  sent w (key_release_event w keycode modifiers) ++ [Sleep KEY_EVENT_INTERVAL].

(** What [send_key] adds to the log once the key string is parsed. *)
Definition send_key_log (w : Window) (primaries mods : list Z)
    (repeat modifiers : Z) : log :=
  flat_map (hold_log w modifiers) mods ++
  List.concat (List.repeat (flat_map (tap_log w modifiers) primaries) (Z.to_nat repeat)) ++
  flat_map (unhold_log w modifiers) (rev mods).

(** How many elements of a list satisfy a test. *)
Definition count {A} (p : A -> bool) (l : list A) : nat :=
  List.length (filter p l).

Definition is_class (c : event.class) (e : Event) : bool :=
  match c, ev_class e with
  | event.KeyPress, event.KeyPress
  | event.KeyRelease, event.KeyRelease
  | event.ButtonPress, event.ButtonPress
  | event.ButtonRelease, event.ButtonRelease
  | event.MotionNotify, event.MotionNotify => true
  | _, _ => false
  end.

Definition is_key (c : event.class) (keycode : Z) (e : Event) : bool :=
  is_class c e && (ev_detail e =? keycode).

(** ** The key-string format in the words of the specification *)

(** A token is a modifier when it is exactly alt, control or shift. *)
Definition is_modifier (tok : string) : bool :=
  String.eqb tok "alt" || String.eqb tok "control" || String.eqb tok "shift".

(** The left-hand modifier key a modifier token stands for. *)
Definition left_hand_key (tok : string) : string :=
  if String.eqb tok "alt" then "Alt_L"
  else if String.eqb tok "control" then "Control_L"
  else "Shift_L".

(** The name a token is resolved under. *)
Definition token_key (tok : string) : string :=
  if is_modifier tok then left_hand_key tok else tok.

(** ** A concrete keyboard and server, for evaluating the functions *)

Module Sample.

Fixpoint assoc {B} (k : string) (tbl : list (string * B)) (dflt : B) : B :=
  match tbl with
  | [] => dflt
  | (k', v) :: rest => if String.eqb k k' then v else assoc k rest dflt
  end.

(** Some entries of python-xlib's keysym tables (latin1, miscellany). *)
Definition string_to_keysym (name : string) : Z :=
  assoc name
    [("a", 97); ("b", 98); ("Return", 65293); ("Shift_L", 65505);
     ("Control_L", 65507); ("Alt_L", 65513)] 0.

(** The keycodes of those keysyms on a common layout. *)
Definition keysym_to_keycode (sym : Z) : Z :=
  if sym =? 97 then 38 else if sym =? 98 then 56
  else if sym =? 65293 then 36 else if sym =? 65505 then 50
  else if sym =? 65507 then 37 else if sym =? 65513 then 64 else 0.

Definition win : Window := {| window_id := 1; window_display := 0 |}.
Definition other_win : Window := {| window_id := 2; window_display := 0 |}.
Definition bytes_win : Window := {| window_id := 3; window_display := 0 |}.

(** A server on which [_NET_WM_PID] is interned as atom 352 and set on
    window 1 as a 32-bit cardinal and on window 3 as a byte string. *)
Definition InternAtom (display : Z) (name : string) (only_if_exists : Z)
    : result Z :=
  Ok (if String.eqb name "_NET_WM_PID" then 352 else 0).

Definition get_property (w : Window) (property type offset length : Z)
    : result (option GetProperty) :=
  if property =? 0 then Raise (mkExn "BadAtom" "")
  else if (property =? 352) && (window_id w =? 1)
  then Ok (Some {| property_type := 6; format := 32; value := [4242] |})
  else if (property =? 352) && (window_id w =? 3)
  then Ok (Some {| property_type := 31; format := 8; value := [52; 50] |})
  else Ok None.

(** A body for a key-hold scope that sends one key and then fails. *)
Definition failing_body : M unit :=
  (key_press win 38 0 ;; raise (mkExn "RuntimeError" "boom"))%exec.

End Sample.

(** ** Measures on logs and strings *)

(** The time spent sleeping along a log, in milliseconds. *)
Fixpoint slept (t : log) : Z :=
  match t with
  | [] => 0
  | Sleep ms :: rest => ms + slept rest
  | _ :: rest => slept rest
  end.

(** How many times a character occurs in a string. *)
Fixpoint count_char (c : ascii) (s : string) : nat :=
  match s with
  | EmptyString => 0%nat
  | String d rest => ((if Ascii.eqb d c then 1 else 0) + count_char c rest)%nat
  end.

(** The press and the release of one key, as events. *)
Definition tap_events (w : Window) (modifiers keycode : Z) : list Event :=
  [key_press_event w keycode modifiers; key_release_event w keycode modifiers].

(** The events of [send_key_log], in order. *)
Definition send_key_events (w : Window) (primaries mods : list Z)
    (repeat modifiers : Z) : list Event :=
  map (fun keycode => key_press_event w keycode modifiers) mods ++
  List.concat (List.repeat (flat_map (tap_events w modifiers) primaries)
                           (Z.to_nat repeat)) ++
  map (fun keycode => key_release_event w keycode modifiers) (rev mods).

(** A log in which every event sent names its target window in its own
    [window] field and is followed at once by a flush of the display of that
    window. *)
Inductive Delivered : log -> Prop :=
| Delivered_nil : Delivered []
| Delivered_send w e rest :
    ev_window e = w -> Delivered rest ->
    Delivered (SendEvent w e :: Flush (window_display w) :: rest)
| Delivered_flush d rest : Delivered rest -> Delivered (Flush d :: rest)
| Delivered_sleep ms rest : Delivered rest -> Delivered (Sleep ms :: rest).

(** [keeps P m]: running [m] from a log that satisfies [P] leaves a log that
    satisfies [P], whatever the outcome. *)
Definition keeps {A} (P : log -> Prop) (m : M A) : Prop :=
  forall t, P t -> P (snd (m t)).

(** The keyboard mapping answers keycodes, and a keycode of the protocol is
    a CARD8 (0 stands for no keycode). *)
Definition keycodes_fit (keysym_to_keycode : Z -> Z) : Prop :=
  forall sym, fits_card8 (keysym_to_keycode sym) = true.



(** What one event sent by [send_key] adds to the log: the event, the flush
    and the pause. *)
Definition paced (w : Window) (e : Event) : log :=
  [SendEvent w e; Flush (window_display w); Sleep KEY_EVENT_INTERVAL].

(** One cycle of a scroll, action by action. *)
Definition scroll_cycle (w : Window) (x y code : Z) : log :=
  [SendEvent w (motion_event w x y); Flush (window_display w);
   SendEvent w (button_press_event w x y code); Flush (window_display w);
   Sleep MOUSE_HELD_DURATION;
   SendEvent w (button_release_event w x y code); Flush (window_display w)].

(** ** The command line, from [exul/__main__.py] *)

(** [s * n] on a string: empty when [n <= 0]. *)
Definition str_mul (s : string) (n : Z) : string :=
  String.concat "" (List.repeat s (Z.to_nat n)).

(** The attributes of the parsed arguments that [main] reads; an option not
    given on the command line is [None]. *)
Record Namespace : Type := mkNamespace {
  args_command : option string;
  args_window_id : option string;
  args_window_name : option string;
  args_class_type : option string;
  args_class_name : option string
}.

(** [value == literal] where [value] may be [None]. *)
Definition eq_str (value : option string) (literal : string) : bool :=
  match value with
  | Some s => String.eqb s literal
  | None => false
  end.

(** Standard output: the texts printed, one per call of [print]. *)
Definition Out (A : Type) : Type := list string -> result A * list string.

Definition print (text : string) : Out unit := fun out => (Ok tt, out ++ [text]).

Definition obind {A B} (m : Out A) (k : A -> Out B) : Out B :=
  fun out => match m out with
             | (Ok a, out') => k a out'
             | (Raise e, out') => (Raise e, out')
             end.

(** [for item in items: body(item)] over standard output. *)
Fixpoint print_each {A} (items : list A) (body : A -> Out unit) : Out unit :=
  match items with
  | [] => fun out => (Ok tt, out)
  | item :: rest => obind (body item) (fun _ => print_each rest body)
  end.

Section Main.

(** [str(window)] and [str(geometry)], as [print] renders its arguments. *)
Variable str_window : Window -> string.
Variable Geometry : Type.
Variable str_geometry : Geometry -> string.

(** [windows()], of the package: the (window, level) pairs it yields, and
    the exception that ends the iteration if there is one. *)
Variable windows : list (Window * Z) * option exn.

(** [find_window(window_id=..., window_name=..., class_type=...,
    class_name=...)], of the package. *)
Variable find_window :
  option string -> option string -> option string -> option string -> result Window.

(** [window.get_geometry()] *)
Variable get_geometry : Window -> result Geometry.

(** The text of [print('  ' * level, window)]: the two arguments, separated
    by one space. *)
Definition enumerate_line (item : Window * Z) : string :=
  String.append (str_mul "  " (snd item))
                (String.append " " (str_window (fst item))).

(** The body of [main]; the decorator around it is not modelled. *)
Definition main (args : Namespace) : Out Z :=
  if eq_str (args_command args) "enumerate" then
    obind (print_each (fst windows) (fun item => print (enumerate_line item)))
      (fun _ => match snd windows with
                | Some e => fun out => (Raise e, out)
                | None => fun out => (Ok 0, out)
                end)
  else if (eq_str (args_command args) "find"
           || eq_str (args_command args) "geometry")%bool then
    obind (fun out => (find_window (args_window_id args) (args_window_name args)
                                   (args_class_type args) (args_class_name args),
                       out))
      (fun window =>
         obind (if eq_str (args_command args) "find" then
                  print (str_window window)
                else if eq_str (args_command args) "geometry" then
                  obind (fun out => (get_geometry window, out))
                        (fun geometry => print (str_geometry geometry))
                else fun out => (Ok tt, out))
           (fun _ out => (Ok 0, out)))
  else fun out => (Ok 0, out).

End Main.

Module SampleMain.

Definition str_window (w : Window) : string :=
  if window_id w =? 1 then "<Window 0x00000001>" else "<Window 0x00000002>".

Definition windows : list (Window * Z) * option exn :=
  ([(Sample.win, 0); (Sample.other_win, 2)], None).

(** Finds window 1 by its name only. *)
Definition find_window (window_id window_name class_type class_name : option string)
    : result Window :=
  if eq_str window_name "xterm" then Ok Sample.win
  else Raise (mkExn "Exception" "window not found").

Definition get_geometry (w : Window) : result (Z * Z) := Ok (640, 480).

Definition str_geometry (g : Z * Z) : string := "<geometry>".

Definition args (command : string) (window_name : option string) : Namespace :=
  mkNamespace (Some command) None window_name None None.

End SampleMain.

(** ** Reasoning about computations *)

(** [says m a out]: from any log, [m] returns [a] and adds exactly [out]. *)
Definition says {A} (m : M A) (a : A) (out : log) : Prop :=
  forall t, m t = (Ok a, t ++ out).

Lemma says_ret {A} (a : A) : says (ret a) a [].
Proof. intro t. unfold ret. now rewrite app_nil_r. Qed.

Lemma says_emit (a : action) : says (emit a) tt [a].
Proof. intro t. reflexivity. Qed.

Lemma says_bind {A B} (m : M A) (k : A -> M B) a b o1 o2 :
  says m a o1 -> says (k a) b o2 -> says (bind m k) b (o1 ++ o2).
Proof.
  intros Hm Hk t. unfold bind. rewrite Hm, Hk. now rewrite app_assoc.
Qed.

Lemma says_lift_ok {A} (r : result A) (a : A) : r = Ok a -> says (lift r) a [].
Proof. intros -> t. unfold lift. now rewrite app_nil_r. Qed.

Lemma says_for_each {A B} (body : A -> M B) (val : A -> B) (out : A -> log) xs :
  (forall x, In x xs -> says (body x) (val x) (out x)) ->
  says (for_each xs body) tt (flat_map out xs).
Proof.
  induction xs as [|x xs IH]; intro Hbody; simpl.
  - apply says_ret.
  - eapply says_bind; [apply Hbody; now left|].
    apply IH. intros x' Hin. apply Hbody. now right.
Qed.

Lemma says_send_event w c ty k x y m :
  fits_card8 k = true -> fits_int16 x = true -> fits_int16 y = true ->
  fits_card16 m = true ->
  says (send_event w c ty k x y m) tt
       (sent w (mkEvent c (event.code c) k X.CurrentTime X.NONE w X.NONE 0 0 x y m 1)).
Proof.
  intros Hk Hx Hy Hm t. unfold send_event, bind, lift, new_event.
  rewrite Hk, Hx, Hy, Hm. cbn. unfold emit, sent. now rewrite <- app_assoc.
Qed.

(** A value that does not fit its field: the event is not built, nothing is
    sent. *)
Lemma send_event_raise w c ty k x y m t :
  fits_card8 k && fits_int16 x && fits_int16 y && fits_card16 m = false ->
  send_event w c ty k x y m t = (Raise struct_error, t).
Proof.
  intro H. unfold send_event, bind, lift, new_event.
  destruct (fits_card8 k), (fits_int16 x), (fits_int16 y), (fits_card16 m);
    try discriminate H; reflexivity.
Qed.

Lemma says_click w x y code :
  fits_int16 x = true -> fits_int16 y = true -> fits_card8 code = true ->
  says (click w x y code) code (click_log w x y code).
Proof.
  intros Hx Hy Hc.
  unfold click, click_log, mouse_move, mouse_down, mouse_up, sleep.
  eapply says_bind; [now apply says_send_event|].
  eapply says_bind; [now apply says_send_event|].
  eapply says_bind; [apply says_emit|].
  replace (sent w (button_release_event w x y code))
    with (sent w (button_release_event w x y code) ++ []) by apply app_nil_r.
  eapply says_bind; [now apply says_send_event | apply says_ret].
Qed.

Lemma says_key_press w k m :
  fits_card8 k = true -> fits_card16 m = true ->
  says (key_press w k m) tt (sent w (key_press_event w k m)).
Proof. intros Hk Hm. now apply says_send_event. Qed.

Lemma says_key_release w k m :
  fits_card8 k = true -> fits_card16 m = true ->
  says (key_release w k m) tt (sent w (key_release_event w k m)).
Proof. intros Hk Hm. now apply says_send_event. Qed.

(** ** Lists and logs *)

Lemma sent_events_app t u : sent_events (t ++ u) = sent_events t ++ sent_events u.
Proof.
  induction t as [|a t IH]; simpl; [reflexivity|].
  destruct a; simpl; now rewrite IH.
Qed.

Lemma sent_events_concat_repeat l n :
  sent_events (List.concat (List.repeat l n))
  = List.concat (List.repeat (sent_events l) n).
Proof.
  induction n as [|n IH]; simpl; [reflexivity|].
  now rewrite sent_events_app, IH.
Qed.

Lemma flat_map_const {A B} (l : list B) (xs : list A) :
  flat_map (fun _ => l) xs = List.concat (List.repeat l (List.length xs)).
Proof. induction xs as [|x xs IH]; simpl; [reflexivity | now rewrite IH]. Qed.

Lemma length_range n : List.length (range n) = Z.to_nat n.
Proof. unfold range. now rewrite length_map, length_seq. Qed.

(** ** The event sender *)

(** C6: when the keycode, the coordinates and the modifier mask fit their
    fields (CARD8, INT16, CARD16), the record [send_event] hands to the
    window carries the caller's modifier mask as its state, same_screen = 1,
    the supplied x and y as the window-relative coordinates and zero for both
    root-relative ones; it is the only event sent, and is followed by a flush
    of the window's display.  The type of the record is the code of its
    class.  When a value does not fit, no record is built: the call raises
    and sends nothing. *)
Theorem send_event_record :
  forall window event_class event_type keycode x y modifiers t,
    let fits := fits_card8 keycode && fits_int16 x && fits_int16 y
                && fits_card16 modifiers in
    let call := send_event window event_class event_type keycode x y modifiers t in
    (fits = true ->
     exists e,
       call = (Ok tt, t ++ [SendEvent window e; Flush (window_display window)]) /\
       ev_state e = modifiers /\
       ev_same_screen e = 1 /\
       ev_event_x e = x /\ ev_event_y e = y /\
       ev_root_x e = 0 /\ ev_root_y e = 0 /\
       ev_class e = event_class /\ ev_type e = event.code event_class /\
       ev_detail e = keycode /\ ev_window e = window) /\
    (fits = false -> call = (Raise struct_error, t)).
Proof.
  intros window event_class event_type keycode x y modifiers t fits call.
  subst fits call. split.
  - intro Hfits.
    apply andb_prop in Hfits as [Hfits Hm].
    apply andb_prop in Hfits as [Hfits Hy].
    apply andb_prop in Hfits as [Hk Hx].
    eexists. split; [now apply says_send_event|].
    repeat split.
  - apply send_event_raise.
Qed.

Lemma send_event_record_witness :
  (exists e,
     send_event Sample.win event.ButtonPress X.ButtonPress 1 10 20 0 []
     = (Ok tt, [] ++ [SendEvent Sample.win e; Flush (window_display Sample.win)]) /\
     ev_state e = 0 /\ ev_same_screen e = 1 /\
     ev_event_x e = 10 /\ ev_event_y e = 20 /\
     ev_root_x e = 0 /\ ev_root_y e = 0 /\
     ev_class e = event.ButtonPress /\ ev_type e = event.code event.ButtonPress /\
     ev_detail e = 1 /\ ev_window e = Sample.win) /\
  send_event Sample.win event.MotionNotify X.MotionNotify X.NotifyNormal 40000 20 0 []
  = (Raise struct_error, []).
Proof.
  destruct (send_event_record Sample.win event.ButtonPress X.ButtonPress 1 10 20 0 [])
    as [Hfits _].
  destruct (send_event_record Sample.win event.MotionNotify X.MotionNotify
                              X.NotifyNormal 40000 20 0 [])
    as [_ Hraise].
  split; [apply Hfits | apply Hraise]; reflexivity.
Defined.

(** ** Click and scroll *)

(** C3: for coordinates that fit INT16 and a button code that fits CARD8,
    [click] sends exactly three events, in order a pointer move to (x, y), a
    press of the given button and a release of the same button, and returns
    the button code. *)
Theorem click_three_events :
  forall window x y code t,
    fits_int16 x = true -> fits_int16 y = true -> fits_card8 code = true ->
    click window x y code t = (Ok code, t ++ click_log window x y code) /\
    sent_events (snd (click window x y code t))
    = sent_events t ++ [motion_event window x y;
                        button_press_event window x y code;
                        button_release_event window x y code].
Proof.
  intros window x y code t Hx Hy Hc.
  rewrite (says_click window x y code Hx Hy Hc t). split; [reflexivity|].
  simpl snd. now rewrite sent_events_app.
Qed.

Lemma click_three_events_witness :
  click Sample.win 10 20 MOUSE_LEFT []
  = (Ok MOUSE_LEFT, [] ++ click_log Sample.win 10 20 MOUSE_LEFT).
Proof.
  apply (click_three_events Sample.win 10 20 MOUSE_LEFT []); reflexivity.
Defined.

Lemma says_scroll w x y repeat code (scroll : M Z) :
  fits_int16 x = true -> fits_int16 y = true -> fits_card8 code = true ->
  scroll = bind (mouse_move w x y) (fun _ =>
           bind (for_each (range repeat) (fun _ => click w x y code)) (fun _ =>
           ret repeat)) ->
  says scroll repeat
       (sent w (motion_event w x y) ++
        List.concat (List.repeat (click_log w x y code) (Z.to_nat repeat))).
Proof.
  intros Hx Hy Hc ->.
  eapply says_bind; [now apply says_send_event|].
  rewrite <- (length_range repeat), <- (flat_map_const (A := Z)).
  rewrite <- (app_nil_r (flat_map _ _)).
  eapply says_bind; [|apply says_ret].
  apply (says_for_each _ (fun _ => code)). intros _ _. now apply says_click.
Qed.

Lemma sent_events_scroll w x y code n :
  sent_events (sent w (motion_event w x y) ++
               List.concat (List.repeat (click_log w x y code) n))
  = motion_event w x y ::
    List.concat (List.repeat [motion_event w x y;
                              button_press_event w x y code;
                              button_release_event w x y code] n).
Proof. now rewrite sent_events_app, sent_events_concat_repeat. Qed.

(** C1, as the code has it: for coordinates that fit INT16, [scroll_up]
    sends one pointer move and then [repeat] click cycles, each cycle being
    a pointer move, a press and a release of the scroll-up button, and
    returns [repeat]; [scroll_down] does the same with the scroll-down
    button.  A [repeat] below 1 gives no cycle. *)
Theorem scroll_move_then_clicks :
  forall window x y repeat t,
    fits_int16 x = true -> fits_int16 y = true ->
    let cycles code :=
      List.concat (List.repeat [motion_event window x y;
                                button_press_event window x y code;
                                button_release_event window x y code]
                               (Z.to_nat repeat)) in
    let added code :=
      sent window (motion_event window x y) ++
      List.concat (List.repeat (click_log window x y code) (Z.to_nat repeat)) in
    (scroll_up window x y repeat t = (Ok repeat, t ++ added MOUSE_SCROLL_UP) /\
     sent_events (snd (scroll_up window x y repeat t))
     = sent_events t ++ motion_event window x y :: cycles MOUSE_SCROLL_UP) /\
    (scroll_down window x y repeat t = (Ok repeat, t ++ added MOUSE_SCROLL_DOWN) /\
     sent_events (snd (scroll_down window x y repeat t))
     = sent_events t ++ motion_event window x y :: cycles MOUSE_SCROLL_DOWN).
Proof.
  intros window x y repeat t Hx Hy cycles added. subst cycles added.
  rewrite (says_scroll window x y repeat MOUSE_SCROLL_UP
             (scroll_up window x y repeat) Hx Hy eq_refl eq_refl t).
  rewrite (says_scroll window x y repeat MOUSE_SCROLL_DOWN
             (scroll_down window x y repeat) Hx Hy eq_refl eq_refl t).
  cbn [fst snd].
  split; (split; [reflexivity|]);
    now rewrite sent_events_app, sent_events_scroll.
Qed.

Lemma scroll_move_then_clicks_witness :
  sent_events (snd (scroll_up Sample.win 10 20 2 []))
  = sent_events [] ++
    motion_event Sample.win 10 20 ::
    List.concat (List.repeat [motion_event Sample.win 10 20;
                              button_press_event Sample.win 10 20 MOUSE_SCROLL_UP;
                              button_release_event Sample.win 10 20 MOUSE_SCROLL_UP]
                             (Z.to_nat 2)).
Proof.
  apply (scroll_move_then_clicks Sample.win 10 20 2 []); reflexivity.
Defined.

(** C1 as stated fails: with [repeat = 1] the window receives two pointer
    moves, not one, since the click cycle moves the pointer again. *)
Lemma scroll_up_moves_again :
  let sent_by_call := sent_events (snd (scroll_up Sample.win 10 20 1 [])) in
  sent_by_call = [motion_event Sample.win 10 20;
                  motion_event Sample.win 10 20;
                  button_press_event Sample.win 10 20 MOUSE_SCROLL_UP;
                  button_release_event Sample.win 10 20 MOUSE_SCROLL_UP] /\
  count (is_class event.MotionNotify) sent_by_call = 2%nat /\
  sent_by_call <> motion_event Sample.win 10 20 ::
                  List.concat (List.repeat
                    [button_press_event Sample.win 10 20 MOUSE_SCROLL_UP;
                     button_release_event Sample.win 10 20 MOUSE_SCROLL_UP] 1).
Proof.
  simpl. repeat split. discriminate.
Qed.
(** ** Key codes *)

Section KeyFacts.

Variable string_to_keysym : string -> Z.
Variable keysym_to_keycode : Z -> Z.

Lemma get_key_code_ok name :
  string_to_keysym (converted name) <> 0 ->
  get_key_code string_to_keysym keysym_to_keycode name
  = Ok (key_code_of string_to_keysym keysym_to_keycode name).
Proof.
  intro H. unfold get_key_code, key_code_of.
  destruct (Z.eqb_spec (string_to_keysym (converted name)) 0); [contradiction|reflexivity].
Qed.

Lemma get_key_code_raise name :
  string_to_keysym (converted name) = 0 ->
  get_key_code string_to_keysym keysym_to_keycode name
  = Raise (mkExn "Exception"
             (String.append "NoSymbol found for character: " (converted name))).
Proof.
  intro H. unfold get_key_code. now rewrite H.
Qed.

End KeyFacts.

(** C8 fails on the name Ctrl by a slip of the code: the name is rewritten
    to Control before the lookup, and Control is in no keysym table (the
    control keys are Control_L and Control_R, and [_parse_key_string] looks
    the modifier up as Control_L), so the call raises whatever the keyboard,
    with a message that names Control and does not contain Ctrl.  The
    sibling conversion of Enter to Return reaches a name that resolves. *)
Lemma get_key_code_Ctrl_message :
  get_key_code Sample.string_to_keysym Sample.keysym_to_keycode "Ctrl"
  = Raise (mkExn "Exception" "NoSymbol found for character: Control") /\
  is_substring "Ctrl" "NoSymbol found for character: Control" = false /\
  get_key_code Sample.string_to_keysym Sample.keysym_to_keycode "Control_L" = Ok 37 /\
  get_key_code Sample.string_to_keysym Sample.keysym_to_keycode "Enter"
  = get_key_code Sample.string_to_keysym Sample.keysym_to_keycode "Return" /\
  get_key_code Sample.string_to_keysym Sample.keysym_to_keycode "Return" = Ok 36.
Proof. repeat split. Qed.

(** ** Parsing a key string *)

Lemma in_tuple_modifiers part :
  in_tuple part ["alt"; "control"; "shift"] = is_modifier part.
Proof.
  unfold is_modifier. simpl.
  destruct (String.eqb part "alt"), (String.eqb part "control"),
           (String.eqb part "shift"); reflexivity.
Qed.

Lemma capitalize_modifier tok :
  is_modifier tok = true ->
  String.append (capitalize tok) "_L" = left_hand_key tok.
Proof.
  unfold is_modifier, left_hand_key.
  destruct (String.eqb_spec tok "alt") as [->|_]; [reflexivity|].
  destruct (String.eqb_spec tok "control") as [->|_]; [reflexivity|].
  destruct (String.eqb_spec tok "shift") as [->|_]; [reflexivity|discriminate].
Qed.

(** [split] is the inverse of joining with the separator, and no token holds
    the separator: the two facts that fix what [str.split] answers. *)
Lemma split_nonempty sep s : split sep s <> [].
Proof.
  destruct s as [|c s]; simpl; [discriminate|].
  destruct (Ascii.eqb c sep); [discriminate|].
  destruct (split sep s); discriminate.
Qed.

Lemma join_split sep s : join sep (split sep s) = s.
Proof.
  induction s as [|c s IH]; [reflexivity|].
  simpl split. destruct (Ascii.eqb_spec c sep) as [->|Hc].
  - pose proof (split_nonempty sep s) as Hne.
    destruct (split sep s) as [|tok toks]; [contradiction|].
    change (String sep (join sep (tok :: toks)) = String sep s). now rewrite IH.
  - pose proof (split_nonempty sep s) as Hne.
    destruct (split sep s) as [|tok toks]; [contradiction|].
    rewrite <- IH. destruct toks; reflexivity.
Qed.

Lemma split_tokens_free sep s :
  Forall (fun tok => contains_char sep tok = false) (split sep s).
Proof.
  induction s as [|c s IH]; simpl.
  - constructor; [reflexivity|constructor].
  - destruct (Ascii.eqb_spec c sep) as [->|Hc].
    + constructor; [reflexivity|exact IH].
    + destruct (split sep s) as [|tok toks].
      * constructor; [|constructor]. simpl.
        destruct (Ascii.eqb_spec c sep); [contradiction|reflexivity].
      * inversion IH; subst. constructor; [|assumption]. simpl.
        destruct (Ascii.eqb_spec c sep); [contradiction|assumption].
Qed.

Section ParseFacts.

Variable string_to_keysym : string -> Z.
Variable keysym_to_keycode : Z -> Z.

Let code_of := key_code_of string_to_keysym keysym_to_keycode.
Let resolves (name : string) : Prop := string_to_keysym (converted name) <> 0.

Lemma parse_parts_resolved parts :
  Forall (fun tok => resolves (token_key tok)) parts ->
  forall primaries mods,
    parse_parts string_to_keysym keysym_to_keycode parts primaries mods
    = Ok (primaries ++ map code_of (filter (fun tok => negb (is_modifier tok)) parts),
          mods ++ map (fun tok => code_of (left_hand_key tok)) (filter is_modifier parts)).
Proof.
  induction 1 as [|part parts Hpart _ IH]; intros primaries mods;
    cbn [parse_parts].
  - simpl. now rewrite !app_nil_r.
  - rewrite in_tuple_modifiers. unfold token_key in Hpart.
    cbn [filter]. destruct (is_modifier part) eqn:Hmod; cbn [negb map].
    + rewrite (capitalize_modifier _ Hmod).
      rewrite (get_key_code_ok _ _ _ Hpart). cbn [rbind].
      rewrite IH. now rewrite <- app_assoc.
    + rewrite (get_key_code_ok _ _ _ Hpart). cbn [rbind].
      rewrite IH. now rewrite <- app_assoc.
Qed.

End ParseFacts.

(** C7: a key string without a plus sign, or the string made of one plus
    sign, parses to that string as the only primary key and no modifier;
    a name that does not resolve raises what [get_key_code] raises.  Any
    other string is split on the plus sign, and the tokens alt, control
    and shift give the modifier keycodes, those of the left-hand modifier
    keys, in listed order, the remaining tokens the primary keycodes in
    listed order.  The names are taken to resolve. *)
Theorem parse_key_string_spec :
  forall (string_to_keysym : string -> Z) (keysym_to_keycode : Z -> Z) key,
    let code_of := key_code_of string_to_keysym keysym_to_keycode in
    let resolves name := string_to_keysym (converted name) <> 0 in
    let parsed := _parse_key_string string_to_keysym keysym_to_keycode key in
    let tokens := split "+" key in
    (contains_char "+" key = false \/ key = "+" ->
     parsed = match get_key_code string_to_keysym keysym_to_keycode key with
              | Ok code => Ok ([code], [])
              | Raise e => Raise e
              end /\
     (resolves key -> parsed = Ok ([code_of key], []))) /\
    (contains_char "+" key = true -> key <> "+" ->
     Forall (fun tok => resolves (token_key tok)) tokens ->
     parsed = Ok (map code_of (filter (fun tok => negb (is_modifier tok)) tokens),
                  map (fun tok => code_of (left_hand_key tok))
                      (filter is_modifier tokens))).
Proof.
  intros s2k k2c key code_of resolves parsed tokens.
  subst code_of resolves parsed tokens. unfold _parse_key_string. split.
  - intros Hlit.
    assert (negb (contains_char "+" key) || String.eqb key "+" = true) as ->.
    { destruct Hlit as [-> | ->]; reflexivity. }
    split; [reflexivity|].
    intro Hres. now rewrite (get_key_code_ok _ _ _ Hres).
  - intros Hplus Hne Hres. rewrite Hplus.
    destruct (String.eqb_spec key "+") as [|_]; [contradiction|]. simpl.
    now rewrite (parse_parts_resolved _ _ _ Hres).
Qed.

Lemma parse_key_string_spec_witness :
  _parse_key_string Sample.string_to_keysym Sample.keysym_to_keycode "Enter"
  = Ok ([36], []) /\
  _parse_key_string Sample.string_to_keysym Sample.keysym_to_keycode
                    "control+a+shift+b"
  = Ok ([38; 56], [37; 50]).
Proof.
  destruct (parse_key_string_spec Sample.string_to_keysym Sample.keysym_to_keycode
                                  "Enter") as [Hliteral _].
  destruct (parse_key_string_spec Sample.string_to_keysym Sample.keysym_to_keycode
                                  "control+a+shift+b") as [_ Hsplit].
  split.
  - apply Hliteral.
    + left; reflexivity.
    + discriminate.
  - apply Hsplit.
    + reflexivity.
    + discriminate.
    + repeat constructor; discriminate.
Defined.

(** ** Sending keys *)

Lemma count_app {A} (p : A -> bool) l1 l2 :
  count p (l1 ++ l2) = (count p l1 + count p l2)%nat.
Proof. unfold count. now rewrite filter_app, length_app. Qed.

Lemma count_concat_repeat {A} (p : A -> bool) l n :
  count p l = 0%nat -> count p (List.concat (List.repeat l n)) = 0%nat.
Proof.
  intro H. induction n as [|n IH]; simpl; [reflexivity|].
  now rewrite count_app, H, IH.
Qed.

Lemma Sample_keycodes_fit : keycodes_fit Sample.keysym_to_keycode.
Proof.
  intro sym. unfold Sample.keysym_to_keycode.
  repeat (match goal with |- context [if ?b then _ else _] => destruct b end);
    reflexivity.
Qed.

Section SendKeyFacts.

Variable string_to_keysym : string -> Z.
Variable keysym_to_keycode : Z -> Z.
Hypothesis Hfit : keycodes_fit keysym_to_keycode.

Lemma get_key_code_fits name code :
  get_key_code string_to_keysym keysym_to_keycode name = Ok code ->
  fits_card8 code = true.
Proof.
  unfold get_key_code.
  destruct (string_to_keysym (converted name) =? 0); [discriminate|].
  intros [= <-]. apply Hfit.
Qed.

Lemma parse_parts_fits parts :
  forall primaries mods primaries' mods',
    Forall (fun c => fits_card8 c = true) primaries ->
    Forall (fun c => fits_card8 c = true) mods ->
    parse_parts string_to_keysym keysym_to_keycode parts primaries mods
    = Ok (primaries', mods') ->
    Forall (fun c => fits_card8 c = true) primaries' /\
    Forall (fun c => fits_card8 c = true) mods'.
Proof.
  induction parts as [|part parts IH]; intros primaries mods primaries' mods' Hp Hm.
  - cbn [parse_parts]. intros [= <- <-]. now split.
  - cbn [parse_parts].
    destruct (in_tuple part ["alt"; "control"; "shift"]).
    + destruct (get_key_code _ _ (String.append (capitalize part) "_L"))
        as [code|e] eqn:Hcode; cbn [rbind]; [|discriminate].
      apply IH; [assumption|].
      apply Forall_app. split; [assumption|].
      constructor; [exact (get_key_code_fits _ _ Hcode) | constructor].
    + destruct (get_key_code _ _ part) as [code|e] eqn:Hcode; cbn [rbind];
        [|discriminate].
      apply IH; [|assumption].
      apply Forall_app. split; [assumption|].
      constructor; [exact (get_key_code_fits _ _ Hcode) | constructor].
Qed.

Lemma parse_key_string_fits key primaries mods :
  _parse_key_string string_to_keysym keysym_to_keycode key = Ok (primaries, mods) ->
  Forall (fun c => fits_card8 c = true) primaries /\
  Forall (fun c => fits_card8 c = true) mods.
Proof.
  unfold _parse_key_string.
  destruct (negb (contains_char "+" key) || String.eqb key "+")%bool.
  - destruct (get_key_code _ _ key) as [code|e] eqn:Hcode; cbn [rbind];
      [|discriminate].
    intros [= <- <-]. split; [|constructor].
    constructor; [exact (get_key_code_fits _ _ Hcode) | constructor].
  - apply parse_parts_fits; constructor.
Qed.

Lemma says_send_key w key primaries mods repeat modifiers :
  fits_card16 modifiers = true ->
  _parse_key_string string_to_keysym keysym_to_keycode key = Ok (primaries, mods) ->
  says (send_key string_to_keysym keysym_to_keycode w key repeat modifiers) tt
       (send_key_log w primaries mods repeat modifiers).
Proof.
  intros Hmask Hparse.
  destruct (parse_key_string_fits _ _ _ Hparse) as [Hp Hm].
  rewrite Forall_forall in Hp, Hm.
  unfold send_key, send_key_log.
  change (flat_map (hold_log w modifiers) mods ++ _)
    with ([] ++ flat_map (hold_log w modifiers) mods ++
          List.concat (List.repeat (flat_map (tap_log w modifiers) primaries)
                                   (Z.to_nat repeat)) ++
          flat_map (unhold_log w modifiers) (rev mods)).
  eapply says_bind; [apply says_lift_ok, Hparse|]. cbv beta iota.
  eapply says_bind.
  { apply (says_for_each _ (fun _ => tt)). intros keycode Hin. unfold hold_log.
    eapply says_bind; [apply says_key_press; auto | apply says_emit]. }
  eapply says_bind.
  { rewrite <- (length_range repeat), <- (flat_map_const (A := Z)).
    apply (says_for_each _ (fun _ => tt)). intros _ _.
    apply (says_for_each _ (fun _ => tt)). intros keycode Hin. unfold tap_log.
    eapply says_bind; [apply says_key_press; auto|].
    eapply says_bind; [apply says_emit|].
    eapply says_bind; [apply says_key_release; auto | apply says_emit]. }
  apply (says_for_each _ (fun _ => tt)). intros keycode Hin. unfold unhold_log.
  apply in_rev in Hin.
  eapply says_bind; [apply says_key_release; auto | apply says_emit].
Qed.

Lemma says_send_keys w keys parsed :
  Forall2 (fun key pm =>
             _parse_key_string string_to_keysym keysym_to_keycode key = Ok pm)
          keys parsed ->
  says (send_keys string_to_keysym keysym_to_keycode w keys)
       (Z.of_nat (List.length keys))
       (flat_map (fun pm => send_key_log w (fst pm) (snd pm) 1 0) parsed).
Proof.
  intro Hall. unfold send_keys.
  rewrite <- (app_nil_r (flat_map _ parsed)).
  eapply says_bind; [|apply says_ret].
  induction Hall as [|key [primaries mods] keys parsed Hkey _ IH]; simpl.
  - apply says_ret.
  - eapply says_bind;
      [apply (says_send_key w key primaries mods 1 0 eq_refl Hkey) | exact IH].
Qed.

Lemma send_key_fold w keys parsed :
  Forall2 (fun key pm =>
             _parse_key_string string_to_keysym keysym_to_keycode key = Ok pm)
          keys parsed ->
  forall t,
    fold_left (fun t' key =>
                 snd (send_key string_to_keysym keysym_to_keycode w key 1 0 t'))
              keys t
    = t ++ flat_map (fun pm => send_key_log w (fst pm) (snd pm) 1 0) parsed.
Proof.
  induction 1 as [|key [primaries mods] keys parsed Hkey _ IH]; intro t; simpl.
  - now rewrite app_nil_r.
  - rewrite (says_send_key w key primaries mods 1 0 eq_refl Hkey t). cbn [snd].
    rewrite IH. now rewrite <- app_assoc.
Qed.

End SendKeyFacts.

Lemma send_key_raise (string_to_keysym : string -> Z) (keysym_to_keycode : Z -> Z)
    w key repeat modifiers e t :
  _parse_key_string string_to_keysym keysym_to_keycode key = Raise e ->
  send_key string_to_keysym keysym_to_keycode w key repeat modifiers t = (Raise e, t).
Proof. intro H. unfold send_key, bind, lift. now rewrite H. Qed.

Lemma parse_shift_a (string_to_keysym : string -> Z) (keysym_to_keycode : Z -> Z) :
  string_to_keysym "Shift_L" <> 0 -> string_to_keysym "a" <> 0 ->
  _parse_key_string string_to_keysym keysym_to_keycode "shift+a"
  = Ok ([keysym_to_keycode (string_to_keysym "a")],
        [keysym_to_keycode (string_to_keysym "Shift_L")]).
Proof.
  intros Hshift Ha.
  change (_parse_key_string string_to_keysym keysym_to_keycode "shift+a")
    with (parse_parts string_to_keysym keysym_to_keycode ["shift"; "a"] [] []).
  rewrite parse_parts_resolved; [reflexivity|].
  repeat constructor; assumption.
Qed.

(** C2: [send_key] on shift+a presses the left shift key first, then sends
    [repeat] consecutive press/release pairs of the a key, and releases the
    shift key last; the names Shift_L and a are taken to resolve, the
    keyboard mapping to answer keycodes (CARD8) and the modifier mask to fit
    its field (CARD16; the default 0 does).  Shift is pressed once and
    released once (counted by keycode, when a has another keycode), before
    and after every event of the a key. *)
Theorem send_key_shift_a :
  forall (string_to_keysym : string -> Z) (keysym_to_keycode : Z -> Z)
         window repeat modifiers t,
    keycodes_fit keysym_to_keycode ->
    fits_card16 modifiers = true ->
    string_to_keysym "Shift_L" <> 0 ->
    string_to_keysym "a" <> 0 ->
    let shift := keysym_to_keycode (string_to_keysym "Shift_L") in
    let a := keysym_to_keycode (string_to_keysym "a") in
    let call :=
      send_key string_to_keysym keysym_to_keycode window "shift+a" repeat modifiers t in
    let sent_by_call :=
      key_press_event window shift modifiers ::
      List.concat (List.repeat [key_press_event window a modifiers;
                                key_release_event window a modifiers]
                               (Z.to_nat repeat)) ++
      [key_release_event window shift modifiers] in
    call = (Ok tt,
            t ++ hold_log window modifiers shift ++
                 List.concat (List.repeat (tap_log window modifiers a)
                                          (Z.to_nat repeat)) ++
                 unhold_log window modifiers shift) /\
    sent_events (snd call) = sent_events t ++ sent_by_call /\
    (shift <> a ->
     count (is_key event.KeyPress shift) sent_by_call = 1%nat /\
     count (is_key event.KeyRelease shift) sent_by_call = 1%nat).
Proof.
  intros s2k k2c window repeat modifiers t Hfit Hmask Hshift Ha
         shift a call sent_by_call.
  assert (Hcall : call = (Ok tt,
            t ++ hold_log window modifiers shift ++
                 List.concat (List.repeat (tap_log window modifiers a)
                                          (Z.to_nat repeat)) ++
                 unhold_log window modifiers shift)).
  { subst call.
    rewrite (says_send_key s2k k2c Hfit window _ _ _ repeat modifiers Hmask
               (parse_shift_a s2k k2c Hshift Ha) t).
    unfold send_key_log. cbn [flat_map rev app]. now rewrite !app_nil_r. }
  split; [exact Hcall|]. split.
  - rewrite Hcall. cbn [snd]. subst sent_by_call.
    rewrite !sent_events_app, sent_events_concat_repeat. reflexivity.
  - intro Hne. subst sent_by_call.
    change (key_press_event window shift modifiers :: ?l)
      with ([key_press_event window shift modifiers] ++ l).
    assert (Hp : count (is_key event.KeyPress shift)
                       [key_press_event window a modifiers;
                        key_release_event window a modifiers] = 0%nat).
    { unfold count, is_key. simpl.
      destruct (Z.eqb_spec a shift) as [E|_]; [congruence|reflexivity]. }
    assert (Hr : count (is_key event.KeyRelease shift)
                       [key_press_event window a modifiers;
                        key_release_event window a modifiers] = 0%nat).
    { unfold count, is_key. simpl.
      destruct (Z.eqb_spec a shift) as [E|_]; [congruence|reflexivity]. }
    split; rewrite !count_app, count_concat_repeat by assumption;
      unfold count, is_key; simpl; rewrite ?Z.eqb_refl; reflexivity.
Qed.

Lemma send_key_shift_a_witness :
  sent_events
    (snd (send_key Sample.string_to_keysym Sample.keysym_to_keycode
                   Sample.win "shift+a" 3 0 []))
  = [key_press_event Sample.win 50 0;
     key_press_event Sample.win 38 0; key_release_event Sample.win 38 0;
     key_press_event Sample.win 38 0; key_release_event Sample.win 38 0;
     key_press_event Sample.win 38 0; key_release_event Sample.win 38 0;
     key_release_event Sample.win 50 0].
Proof.
  apply (send_key_shift_a Sample.string_to_keysym Sample.keysym_to_keycode
                          Sample.win 3 0 [] Sample_keycodes_fit eq_refl);
    discriminate.
Defined.

(** X11: when a key string does not parse, [send_keys] stops there: the keys
    before it have been sent, the exception goes to the caller and nothing
    is returned.  The keyboard mapping is taken to answer keycodes. *)
Lemma send_keys_stops_at_failure (string_to_keysym : string -> Z)
    (keysym_to_keycode : Z -> Z) w before parsed key after e t :
  keycodes_fit keysym_to_keycode ->
  Forall2 (fun key pm =>
             _parse_key_string string_to_keysym keysym_to_keycode key = Ok pm)
          before parsed ->
  _parse_key_string string_to_keysym keysym_to_keycode key = Raise e ->
  send_keys string_to_keysym keysym_to_keycode w (before ++ key :: after) t
  = (Raise e, t ++ flat_map (fun pm => send_key_log w (fst pm) (snd pm) 1 0) parsed).
Proof.
  intros Hfit Hall Hkey.
  assert (Hloop : forall t,
            for_each (before ++ key :: after)
                     (fun key => send_key string_to_keysym keysym_to_keycode w key 1 0) t
            = (Raise e, t ++ flat_map (fun pm => send_key_log w (fst pm) (snd pm) 1 0)
                                      parsed)).
  { induction Hall as [|k [primaries mods] ks parsed Hk _ IH]; intro t';
      cbn [app for_each flat_map]; unfold bind.
    - rewrite (send_key_raise _ _ _ _ _ _ _ _ Hkey). now rewrite app_nil_r.
    - rewrite (says_send_key _ _ Hfit w k primaries mods 1 0 eq_refl Hk t').
      rewrite IH. now rewrite <- app_assoc. }
  unfold send_keys, bind. now rewrite Hloop.
Qed.

(** C10: [send_keys] calls [send_key] once per element of [keys], in order,
    each with repeat 1 and modifiers 0, and returns the number of elements;
    on an empty sequence nothing is sent and 0 is returned.  The key strings
    are taken to parse ([parsed] holds what each parses to) and the keyboard
    mapping to answer keycodes. *)
Theorem send_keys_each_in_order :
  forall (string_to_keysym : string -> Z) (keysym_to_keycode : Z -> Z)
         window keys parsed t,
    let send_keys := send_keys string_to_keysym keysym_to_keycode in
    let send_key := send_key string_to_keysym keysym_to_keycode in
    send_keys window [] t = (Ok 0, t) /\
    (keycodes_fit keysym_to_keycode ->
     Forall2 (fun key pm =>
                _parse_key_string string_to_keysym keysym_to_keycode key = Ok pm)
             keys parsed ->
     send_keys window keys t
     = (Ok (Z.of_nat (List.length keys)),
        fold_left (fun t' key => snd (send_key window key 1 0 t')) keys t) /\
     snd (send_keys window keys t)
     = t ++ flat_map (fun pm => send_key_log window (fst pm) (snd pm) 1 0) parsed).
Proof.
  intros s2k k2c window keys parsed t sks sk. subst sks sk. split; [reflexivity|].
  intros Hfit Hall.
  rewrite (says_send_keys s2k k2c Hfit window keys parsed Hall t).
  rewrite (send_key_fold s2k k2c Hfit window keys parsed Hall t).
  split; reflexivity.
Qed.

Lemma send_keys_each_in_order_witness :
  send_keys Sample.string_to_keysym Sample.keysym_to_keycode
            Sample.win ["shift+a"; "Enter"] []
  = (Ok 2,
     fold_left (fun t' key =>
                  snd (send_key Sample.string_to_keysym Sample.keysym_to_keycode
                                Sample.win key 1 0 t'))
               ["shift+a"; "Enter"] []).
Proof.
  apply (send_keys_each_in_order Sample.string_to_keysym Sample.keysym_to_keycode
           Sample.win ["shift+a"; "Enter"] [([38], [50]); ([36], [])] []).
  - exact Sample_keycodes_fit.
  - repeat constructor.
Defined.

(** ** The key-hold scope *)

Lemma with_KeyPressed_run (string_to_keysym : string -> Z)
    (keysym_to_keycode : Z -> Z) window key code (body : M unit) t :
  get_key_code string_to_keysym keysym_to_keycode key = Ok code ->
  fits_card8 code = true ->
  with_KeyPressed string_to_keysym keysym_to_keycode window key body t
  = (fst (body (t ++ sent window (key_press_event window code 0))),
     snd (body (t ++ sent window (key_press_event window code 0)))
     ++ sent window (key_release_event window code 0)).
Proof.
  intros Hcode Hfits.
  unfold with_KeyPressed, KeyPressed__init__, with_stmt, lift.
  unfold bind at 1. rewrite Hcode. cbn [rbind].
  unfold KeyPressed__enter__, KeyPressed__exit__. cbn [self_window self_code].
  unfold bind at 1. rewrite (says_key_press window code 0 Hfits eq_refl).
  destruct (body (t ++ sent window (key_press_event window code 0)))
    as [[[]|e] t1]; cbn [fst snd]; unfold bind;
    rewrite (says_key_release window code 0 Hfits eq_refl); reflexivity.
Qed.

Lemma key_press_raise w k m t :
  fits_card8 k = false -> key_press w k m t = (Raise struct_error, t).
Proof. intro H. unfold key_press. apply send_event_raise. now rewrite H. Qed.

(** C4: for a key name that resolves, the key-hold scope sends exactly one
    release of the resolved keycode when it is left, after whatever the
    wrapped block did, whether the block completes or raises; the outcome of
    the block is the outcome of the whole statement.  This is for a keycode
    that fits its field, as the keycodes of a keyboard mapping do; with one
    that does not, the press raises, the scope is never entered and nothing
    is sent. *)
Theorem KeyPressed_releases_on_exit :
  forall (string_to_keysym : string -> Z) (keysym_to_keycode : Z -> Z)
         window key code (body : M unit) t,
    get_key_code string_to_keysym keysym_to_keycode key = Ok code ->
    let entered := t ++ sent window (key_press_event window code 0) in
    let scope :=
      with_KeyPressed string_to_keysym keysym_to_keycode window key body t in
    (fits_card8 code = true ->
     scope = (fst (body entered),
              snd (body entered) ++ sent window (key_release_event window code 0)) /\
     sent_events (snd scope)
     = sent_events (snd (body entered)) ++ [key_release_event window code 0]) /\
    (fits_card8 code = false -> scope = (Raise struct_error, t)).
Proof.
  intros s2k k2c window key code body t Hcode entered scope. split.
  - intro Hfits.
    assert (Hscope : scope = (fst (body entered),
               snd (body entered) ++ sent window (key_release_event window code 0))).
    { subst scope entered. now apply with_KeyPressed_run. }
    split; [exact Hscope|].
    rewrite Hscope. cbn [snd]. now rewrite sent_events_app.
  - intro Hfits. subst scope.
    unfold with_KeyPressed, KeyPressed__init__, with_stmt, lift.
    unfold bind at 1. rewrite Hcode. cbn [rbind].
    unfold KeyPressed__enter__. cbn [self_window self_code].
    unfold bind at 1. now rewrite (key_press_raise window code 0 t Hfits).
Qed.

Lemma KeyPressed_releases_on_exit_witness :
  with_KeyPressed Sample.string_to_keysym Sample.keysym_to_keycode
                  Sample.win "Shift_L" Sample.failing_body []
  = (Raise (mkExn "RuntimeError" "boom"),
     sent Sample.win (key_press_event Sample.win 50 0) ++
     sent Sample.win (key_press_event Sample.win 38 0) ++
     sent Sample.win (key_release_event Sample.win 50 0)).
Proof.
  destruct (KeyPressed_releases_on_exit
              Sample.string_to_keysym Sample.keysym_to_keycode
              Sample.win "Shift_L" 50 Sample.failing_body [] eq_refl)
    as [Hfits _].
  apply Hfits. reflexivity.
Defined.

(** C5, as the code has it: the key name is resolved when the scope object
    is constructed, before the scope is entered, and a name that does not
    resolve raises there; constructing sends nothing.  Entering the scope
    sends the press of the keycode stored in the object and nothing else
    (and sends nothing when that keycode does not fit its field: the press
    raises). *)
Theorem KeyPressed_resolves_at_construction :
  forall (string_to_keysym : string -> Z) (keysym_to_keycode : Z -> Z)
         window key t,
    lift (KeyPressed__init__ string_to_keysym keysym_to_keycode window key) t
    = (match get_key_code string_to_keysym keysym_to_keycode key with
       | Ok code => Ok {| self_window := window; self_code := code |}
       | Raise e => Raise e
       end, t) /\
    (forall self,
       KeyPressed__enter__ self t
       = if fits_card8 (self_code self)
         then (Ok tt, t ++ sent (self_window self)
                                (key_press_event (self_window self)
                                                 (self_code self) 0))
         else (Raise struct_error, t)).
Proof.
  intros. split; [reflexivity|].
  intro self. unfold KeyPressed__enter__.
  destruct (fits_card8 (self_code self)) eqn:Hfits.
  - now apply says_key_press.
  - now apply key_press_raise.
Qed.

(** C5 as stated fails: constructing the scope object already looks the
    name up; an unknown name raises before any scope is entered, and a known
    one is stored as its keycode. *)
Lemma KeyPressed_init_looks_up :
  KeyPressed__init__ Sample.string_to_keysym Sample.keysym_to_keycode
                     Sample.win "Bogus"
  = Raise (mkExn "Exception" "NoSymbol found for character: Bogus") /\
  KeyPressed__init__ Sample.string_to_keysym Sample.keysym_to_keycode
                     Sample.win "a"
  = Ok {| self_window := Sample.win; self_code := 38 |}.
Proof. split; reflexivity. Qed.

(** ** The process id of a window *)

(** C9: when the window carries the property as an array of 16- or 32-bit
    items (the process id is a 32-bit cardinal), [get_window_pid] returns
    the first element of the value of the reply; when the atom lookup and
    the property request yield no reply (an error, or [None]), or a reply
    with an empty value, the call raises instead of returning.  A reply of
    format 8 is a byte string, on which [tolist] raises as well. *)
Theorem get_window_pid_spec :
  forall (InternAtom : Z -> string -> Z -> result Z)
         (get_property : Window -> Z -> Z -> Z -> Z -> result (option GetProperty))
         window,
    let reply :=
      (atom <- InternAtom (window_display window) "_NET_WM_PID" 1 ;;
       get_property window atom X.AnyPropertyType 0 10)%res in
    let call := get_window_pid InternAtom get_property window in
    (forall r v rest,
       reply = Ok (Some r) -> format r = 16 \/ format r = 32 ->
       value r = v :: rest -> call = Ok v) /\
    ((forall r, reply <> Ok (Some r)) -> exists e, call = Raise e) /\
    (forall r, reply = Ok (Some r) -> format r = 16 \/ format r = 32 ->
               value r = [] ->
               call = Raise (mkExn "IndexError" "list index out of range")) /\
    (forall r, reply = Ok (Some r) -> format r = 8 ->
               call = Raise (mkExn "AttributeError"
                               "'bytes' object has no attribute 'tolist'")).
Proof.
  intros IA gp window reply call. subst reply call. unfold get_window_pid.
  destruct (IA (window_display window) "_NET_WM_PID" 1) as [atom|e]; cbn [rbind].
  - destruct (gp window atom X.AnyPropertyType 0 10) as [[r|]|e]; cbn [rbind].
    + repeat split.
      * intros r' v rest [= <-] Hf Hv. unfold getattr_value.
        destruct Hf as [-> | ->]; cbn; rewrite Hv; reflexivity.
      * intro H. exfalso. apply (H r). reflexivity.
      * intros r' [= <-] Hf Hv. unfold getattr_value.
        destruct Hf as [-> | ->]; cbn; rewrite Hv; reflexivity.
      * intros r' [= <-] Hf. unfold getattr_value. rewrite Hf. reflexivity.
    + repeat split; try discriminate. intros _. eexists. reflexivity.
    + repeat split; try discriminate. intros _. eexists. reflexivity.
  - repeat split; try discriminate. intros _. eexists. reflexivity.
Qed.

Lemma get_window_pid_spec_witness :
  get_window_pid Sample.InternAtom Sample.get_property Sample.win = Ok 4242 /\
  (exists e,
     get_window_pid Sample.InternAtom Sample.get_property Sample.other_win
     = Raise e) /\
  get_window_pid Sample.InternAtom Sample.get_property Sample.bytes_win
  = Raise (mkExn "AttributeError" "'bytes' object has no attribute 'tolist'").
Proof.
  destruct (get_window_pid_spec Sample.InternAtom Sample.get_property Sample.win)
    as (Hpresent & _ & _ & _).
  destruct (get_window_pid_spec Sample.InternAtom Sample.get_property
                                Sample.other_win)
    as (_ & Habsent & _ & _).
  destruct (get_window_pid_spec Sample.InternAtom Sample.get_property
                                Sample.bytes_win)
    as (_ & _ & _ & Hbytes).
  split; [|split].
  - eapply Hpresent; [reflexivity | right; reflexivity | reflexivity].
  - apply Habsent. intros r. discriminate.
  - eapply Hbytes; reflexivity.
Defined.

(** ** More on sending keys *)

Lemma sent_events_flat_map {A} (f : A -> list action) (g : A -> list Event) xs :
  (forall x, sent_events (f x) = g x) ->
  sent_events (flat_map f xs) = flat_map g xs.
Proof.
  intro H. induction xs as [|x xs IH]; simpl; [reflexivity|].
  now rewrite sent_events_app, H, IH.
Qed.

Lemma flat_map_singleton {A B} (f : A -> B) xs :
  flat_map (fun x => [f x]) xs = map f xs.
Proof. induction xs as [|x xs IH]; simpl; [reflexivity | now rewrite IH]. Qed.

Lemma sent_events_send_key_log w primaries mods repeat modifiers :
  sent_events (send_key_log w primaries mods repeat modifiers)
  = send_key_events w primaries mods repeat modifiers.
Proof.
  unfold send_key_log, send_key_events.
  rewrite !sent_events_app, sent_events_concat_repeat.
  rewrite (sent_events_flat_map (hold_log w modifiers)
             (fun k => [key_press_event w k modifiers])) by reflexivity.
  rewrite (sent_events_flat_map (unhold_log w modifiers)
             (fun k => [key_release_event w k modifiers])) by reflexivity.
  rewrite (sent_events_flat_map (tap_log w modifiers) (tap_events w modifiers))
    by reflexivity.
  now rewrite !flat_map_singleton.
Qed.

(** X1: whatever a key string parses to, and for a modifier mask that fits
    its field (CARD16) on a keyboard mapping that answers keycodes,
    [send_key] presses the modifiers in listed order, then taps (press,
    release) the primary keys in listed order, the whole list [repeat] times
    over, then releases the modifiers in reverse order; every event carries
    the caller's modifier mask. *)
Theorem send_key_order :
  forall (string_to_keysym : string -> Z) (keysym_to_keycode : Z -> Z)
         window key primaries mods repeat modifiers t,
    keycodes_fit keysym_to_keycode ->
    fits_card16 modifiers = true ->
    _parse_key_string string_to_keysym keysym_to_keycode key = Ok (primaries, mods) ->
    let call :=
      send_key string_to_keysym keysym_to_keycode window key repeat modifiers t in
    fst call = Ok tt /\
    sent_events (snd call)
    = sent_events t ++
      map (fun keycode => key_press_event window keycode modifiers) mods ++
      List.concat
        (List.repeat
           (flat_map (fun keycode => [key_press_event window keycode modifiers;
                                      key_release_event window keycode modifiers])
                     primaries)
           (Z.to_nat repeat)) ++
      map (fun keycode => key_release_event window keycode modifiers) (rev mods).
Proof.
  intros s2k k2c window key primaries mods repeat modifiers t Hfit Hmask Hparse call.
  subst call.
  rewrite (says_send_key s2k k2c Hfit window key _ _ repeat modifiers Hmask Hparse t).
  cbn [fst snd]. split; [reflexivity|].
  now rewrite sent_events_app, sent_events_send_key_log.
Qed.

Lemma send_key_order_witness :
  sent_events
    (snd (send_key Sample.string_to_keysym Sample.keysym_to_keycode
                   Sample.win "control+a+shift+b" 2 4 []))
  = [key_press_event Sample.win 37 4; key_press_event Sample.win 50 4;
     key_press_event Sample.win 38 4; key_release_event Sample.win 38 4;
     key_press_event Sample.win 56 4; key_release_event Sample.win 56 4;
     key_press_event Sample.win 38 4; key_release_event Sample.win 38 4;
     key_press_event Sample.win 56 4; key_release_event Sample.win 56 4;
     key_release_event Sample.win 50 4; key_release_event Sample.win 37 4].
Proof.
  apply (send_key_order Sample.string_to_keysym Sample.keysym_to_keycode
           Sample.win "control+a+shift+b" [38; 56] [37; 50] 2 4 []
           Sample_keycodes_fit eq_refl).
  reflexivity.
Defined.





(** ** Counting and timing *)







(** ** The keys held down *)









Lemma slept_app t u : slept (t ++ u) = slept t + slept u.
Proof.
  induction t as [|a t IH]; simpl; [reflexivity|]. destruct a; simpl; lia.
Qed.

Lemma slept_concat_repeat l n :
  slept (List.concat (List.repeat l n)) = Z.of_nat n * slept l.
Proof.
  induction n as [|n IH]; [reflexivity|].
  cbn [List.repeat List.concat]. rewrite slept_app, IH. lia.
Qed.

Lemma slept_flat_map {A} (f : A -> list action) c xs :
  (forall x, slept (f x) = c) ->
  slept (flat_map f xs) = Z.of_nat (List.length xs) * c.
Proof.
  intro H. induction xs as [|x xs IH]; [reflexivity|].
  cbn [flat_map List.length]. rewrite slept_app, H, IH. lia.
Qed.

Lemma length_concat_repeat {A} (l : list A) n :
  List.length (List.concat (List.repeat l n)) = (n * List.length l)%nat.
Proof.
  induction n as [|n IH]; [reflexivity|].
  cbn [List.repeat List.concat]. rewrite length_app, IH. lia.
Qed.

Lemma length_flat_map_taps w modifiers primaries :
  List.length (flat_map (tap_events w modifiers) primaries)
  = (2 * List.length primaries)%nat.
Proof.
  induction primaries as [|x l IH]; [reflexivity|].
  cbn [flat_map List.length]. rewrite length_app, IH. simpl. lia.
Qed.

Lemma flat_map_map {A B C} (f : A -> B) (g : B -> list C) l :
  flat_map g (map f l) = flat_map (fun x => g (f x)) l.
Proof. induction l as [|x l IH]; simpl; [reflexivity | now rewrite IH]. Qed.

Lemma flat_map_concat_repeat {A B} (g : A -> list B) l n :
  flat_map g (List.concat (List.repeat l n))
  = List.concat (List.repeat (flat_map g l) n).
Proof.
  induction n as [|n IH]; [reflexivity|].
  cbn [List.repeat List.concat]. now rewrite flat_map_app, IH.
Qed.

Lemma flat_map_flat_map {A B C} (f : A -> list B) (g : B -> list C) l :
  flat_map g (flat_map f l) = flat_map (fun x => flat_map g (f x)) l.
Proof.
  induction l as [|x l IH]; [reflexivity|].
  cbn [flat_map]. now rewrite flat_map_app, IH.
Qed.

Lemma send_key_log_paced w primaries mods repeat modifiers :
  send_key_log w primaries mods repeat modifiers
  = flat_map (paced w) (send_key_events w primaries mods repeat modifiers).
Proof.
  unfold send_key_log, send_key_events.
  rewrite !flat_map_app, !flat_map_map, flat_map_concat_repeat, flat_map_flat_map.
  reflexivity.
Qed.

(** X4: on a key string that parses, what [send_key] adds to the log is,
    for each event in turn, the event, the flush and one pause of the key
    interval (24 ms): every event is followed by its own pause.  There are
    two events per modifier and two per primary key and repetition, so the
    call sleeps 24 ms times that number.  The keyboard mapping is taken to
    answer keycodes and the modifier mask to fit its field. *)
Theorem send_key_pacing :
  forall (string_to_keysym : string -> Z) (keysym_to_keycode : Z -> Z)
         window key primaries mods repeat modifiers t,
    keycodes_fit keysym_to_keycode ->
    fits_card16 modifiers = true ->
    _parse_key_string string_to_keysym keysym_to_keycode key = Ok (primaries, mods) ->
    let after :=
      snd (send_key string_to_keysym keysym_to_keycode window key repeat modifiers t) in
    let events :=
      (2 * List.length mods + 2 * (Z.to_nat repeat * List.length primaries))%nat in
    after
    = t ++ flat_map (fun e => [SendEvent window e;
                               Flush (window_display window);
                               Sleep KEY_EVENT_INTERVAL])
                    (send_key_events window primaries mods repeat modifiers) /\
    List.length (send_key_events window primaries mods repeat modifiers) = events /\
    List.length (sent_events after) = (List.length (sent_events t) + events)%nat /\
    slept after = slept t + KEY_EVENT_INTERVAL * Z.of_nat events.
Proof.
  intros s2k k2c window key primaries mods repeat modifiers t Hfit Hmask Hparse
         after events.
  subst after events.
  rewrite (says_send_key s2k k2c Hfit window key _ _ repeat modifiers Hmask Hparse t).
  cbn [snd].
  assert (Hlen : List.length (send_key_events window primaries mods repeat modifiers)
                 = (2 * List.length mods
                    + 2 * (Z.to_nat repeat * List.length primaries))%nat).
  { unfold send_key_events.
    rewrite !length_app, !length_map, length_concat_repeat, length_rev,
      length_flat_map_taps. lia. }
  split; [|split; [|split]].
  - now rewrite send_key_log_paced.
  - exact Hlen.
  - now rewrite sent_events_app, length_app, sent_events_send_key_log, Hlen.
  - rewrite slept_app. unfold send_key_log.
    rewrite !slept_app, slept_concat_repeat.
    rewrite (slept_flat_map (hold_log window modifiers) KEY_EVENT_INTERVAL)
      by (intro; unfold hold_log; simpl; lia).
    rewrite (slept_flat_map (unhold_log window modifiers) KEY_EVENT_INTERVAL)
      by (intro; unfold unhold_log; simpl; lia).
    rewrite (slept_flat_map (tap_log window modifiers) (2 * KEY_EVENT_INTERVAL))
      by (intro; unfold tap_log; simpl; lia).
    rewrite length_rev. unfold KEY_EVENT_INTERVAL. lia.
Qed.

Lemma send_key_pacing_witness :
  snd (send_key Sample.string_to_keysym Sample.keysym_to_keycode
                Sample.win "shift+a" 1 0 [])
  = [] ++ flat_map (fun e => [SendEvent Sample.win e;
                              Flush (window_display Sample.win);
                              Sleep KEY_EVENT_INTERVAL])
                   (send_key_events Sample.win [38] [50] 1 0).
Proof.
  apply (send_key_pacing Sample.string_to_keysym Sample.keysym_to_keycode
           Sample.win "shift+a" [38] [50] 1 0 [] Sample_keycodes_fit eq_refl).
  reflexivity.
Defined.

(** ** More on scrolling *)

(** X5: with [repeat] zero or negative and coordinates that fit INT16,
    [scroll_up] and [scroll_down] send the pointer move and nothing else,
    and still return [repeat] as given. *)
Theorem scroll_nonpositive_repeat :
  forall window x y repeat t,
    fits_int16 x = true -> fits_int16 y = true ->
    repeat <= 0 ->
    scroll_up window x y repeat t
    = (Ok repeat, t ++ sent window (motion_event window x y)) /\
    scroll_down window x y repeat t
    = (Ok repeat, t ++ sent window (motion_event window x y)).
Proof.
  intros window x y repeat t Hx Hy Hrepeat.
  rewrite (says_scroll window x y repeat MOUSE_SCROLL_UP
             (scroll_up window x y repeat) Hx Hy eq_refl eq_refl t).
  rewrite (says_scroll window x y repeat MOUSE_SCROLL_DOWN
             (scroll_down window x y repeat) Hx Hy eq_refl eq_refl t).
  replace (Z.to_nat repeat) with 0%nat by lia.
  cbn [List.repeat List.concat]. now rewrite app_nil_r.
Qed.

Lemma scroll_nonpositive_repeat_witness :
  scroll_up Sample.win 10 20 (-3) []
  = (Ok (-3), [] ++ sent Sample.win (motion_event Sample.win 10 20)).
Proof.
  apply (scroll_nonpositive_repeat Sample.win 10 20 (-3) []);
    [reflexivity | reflexivity | lia].
Defined.

(** X6: for [repeat >= 0] and coordinates that fit INT16, what a scroll adds
    to the log is the pointer move and then [repeat] copies of one cycle:
    move, press, one pause of the held duration (24 ms), release, each event
    followed by its flush.  So it sends 1 + 3 * repeat events and sleeps once
    per cycle, between the press and the release, 24 * repeat ms in all; the
    same for both directions. *)
Theorem scroll_event_count :
  forall window x y repeat t,
    fits_int16 x = true -> fits_int16 y = true ->
    0 <= repeat ->
    let up := snd (scroll_up window x y repeat t) in
    let down := snd (scroll_down window x y repeat t) in
    let added code :=
      [SendEvent window (motion_event window x y); Flush (window_display window)]
      ++ List.concat (List.repeat (scroll_cycle window x y code) (Z.to_nat repeat)) in
    (up = t ++ added MOUSE_SCROLL_UP /\
     Z.of_nat (List.length (sent_events up))
     = Z.of_nat (List.length (sent_events t)) + 1 + 3 * repeat /\
     slept up = slept t + MOUSE_HELD_DURATION * repeat) /\
    (down = t ++ added MOUSE_SCROLL_DOWN /\
     Z.of_nat (List.length (sent_events down))
     = Z.of_nat (List.length (sent_events t)) + 1 + 3 * repeat /\
     slept down = slept t + MOUSE_HELD_DURATION * repeat).
Proof.
  intros window x y repeat t Hx Hy Hrepeat up down added. subst up down added.
  rewrite (says_scroll window x y repeat MOUSE_SCROLL_UP
             (scroll_up window x y repeat) Hx Hy eq_refl eq_refl t).
  rewrite (says_scroll window x y repeat MOUSE_SCROLL_DOWN
             (scroll_down window x y repeat) Hx Hy eq_refl eq_refl t).
  cbn [snd].
  assert (Hlen : forall code,
            Z.of_nat (List.length (sent_events
              (t ++ sent window (motion_event window x y) ++
               List.concat (List.repeat (click_log window x y code)
                                        (Z.to_nat repeat)))))
            = Z.of_nat (List.length (sent_events t)) + 1 + 3 * repeat).
  { intro code. rewrite sent_events_app, sent_events_scroll, length_app.
    cbn [List.length]. rewrite length_concat_repeat. cbn [List.length]. lia. }
  assert (Hslept : forall code,
            slept (t ++ sent window (motion_event window x y) ++
                   List.concat (List.repeat (click_log window x y code)
                                            (Z.to_nat repeat)))
            = slept t + MOUSE_HELD_DURATION * repeat).
  { intro code. rewrite !slept_app, slept_concat_repeat.
    change (slept (sent window (motion_event window x y))) with 0.
    change (slept (click_log window x y code)) with (MOUSE_HELD_DURATION + 0).
    rewrite Z2Nat.id by assumption. unfold MOUSE_HELD_DURATION. lia. }
  rewrite !Hlen, !Hslept. repeat split.
Qed.

Lemma scroll_event_count_witness :
  snd (scroll_up Sample.win 10 20 2 [])
  = [] ++ ([SendEvent Sample.win (motion_event Sample.win 10 20);
            Flush (window_display Sample.win)]
           ++ List.concat (List.repeat (scroll_cycle Sample.win 10 20 MOUSE_SCROLL_UP)
                                       (Z.to_nat 2))).
Proof.
  apply (scroll_event_count Sample.win 10 20 2 []); [reflexivity | reflexivity | lia].
Defined.

(** ** More on the key-hold scope *)

(** X7: a key-hold scope on a name that does not resolve raises the lookup
    exception before anything happens: nothing is sent and the wrapped block
    never runs. *)
Theorem KeyPressed_unresolved_skips_block :
  forall (string_to_keysym : string -> Z) (keysym_to_keycode : Z -> Z)
         window key (body : M unit) t,
    string_to_keysym (converted key) = 0 ->
    with_KeyPressed string_to_keysym keysym_to_keycode window key body t
    = (Raise (mkExn "Exception"
                (String.append "NoSymbol found for character: " (converted key))),
       t).
Proof.
  intros s2k k2c window key body t H0.
  unfold with_KeyPressed, KeyPressed__init__, lift, bind.
  now rewrite (get_key_code_raise _ _ _ H0).
Qed.

Lemma KeyPressed_unresolved_skips_block_witness :
  with_KeyPressed Sample.string_to_keysym Sample.keysym_to_keycode
                  Sample.win "Ctrl" Sample.failing_body []
  = (Raise (mkExn "Exception" "NoSymbol found for character: Control"), []).
Proof.
  apply (KeyPressed_unresolved_skips_block
           Sample.string_to_keysym Sample.keysym_to_keycode
           Sample.win "Ctrl" Sample.failing_body []).
  reflexivity.
Defined.

(** X8: key-hold scopes nest: the keys are pressed outermost first and
    released innermost first, around whatever the block does and whether it
    completes or raises, and the outcome of the block is the outcome of the
    whole statement.  The keyboard mapping is taken to answer keycodes. *)
Theorem KeyPressed_nested :
  forall (string_to_keysym : string -> Z) (keysym_to_keycode : Z -> Z)
         outer_window outer_key outer_code inner_window inner_key inner_code
         (body : M unit) t,
    keycodes_fit keysym_to_keycode ->
    get_key_code string_to_keysym keysym_to_keycode outer_key = Ok outer_code ->
    get_key_code string_to_keysym keysym_to_keycode inner_key = Ok inner_code ->
    let with_key := with_KeyPressed string_to_keysym keysym_to_keycode in
    let entered :=
      t ++ sent outer_window (key_press_event outer_window outer_code 0)
        ++ sent inner_window (key_press_event inner_window inner_code 0) in
    with_key outer_window outer_key (with_key inner_window inner_key body) t
    = (fst (body entered),
       snd (body entered)
       ++ sent inner_window (key_release_event inner_window inner_code 0)
       ++ sent outer_window (key_release_event outer_window outer_code 0)).
Proof.
  intros s2k k2c ow ok oc iw ik ic body t Hfit Hout Hin with_key entered.
  subst with_key entered.
  rewrite (with_KeyPressed_run s2k k2c ow ok oc _ t Hout
             (get_key_code_fits s2k k2c Hfit _ _ Hout)).
  rewrite (with_KeyPressed_run s2k k2c iw ik ic body _ Hin
             (get_key_code_fits s2k k2c Hfit _ _ Hin)).
  cbn [fst snd]. now rewrite <- !app_assoc.
Qed.

Lemma KeyPressed_nested_witness :
  with_KeyPressed Sample.string_to_keysym Sample.keysym_to_keycode
    Sample.win "Control_L"
    (with_KeyPressed Sample.string_to_keysym Sample.keysym_to_keycode
       Sample.win "Shift_L" Sample.failing_body) []
  = (Raise (mkExn "RuntimeError" "boom"),
     sent Sample.win (key_press_event Sample.win 37 0) ++
     sent Sample.win (key_press_event Sample.win 50 0) ++
     sent Sample.win (key_press_event Sample.win 38 0) ++
     sent Sample.win (key_release_event Sample.win 50 0) ++
     sent Sample.win (key_release_event Sample.win 37 0)).
Proof.
  apply (KeyPressed_nested Sample.string_to_keysym Sample.keysym_to_keycode
           Sample.win "Control_L" 37 Sample.win "Shift_L" 50
           Sample.failing_body [] Sample_keycodes_fit); reflexivity.
Defined.

(** ** More on key strings *)

Lemma length_split sep s : List.length (split sep s) = S (count_char sep s).
Proof.
  induction s as [|c s IH]; [reflexivity|].
  cbn [split count_char]. destruct (Ascii.eqb c sep).
  - cbn [List.length]. now rewrite IH.
  - pose proof (split_nonempty sep s) as Hne.
    destruct (split sep s) as [|tok toks]; [contradiction|].
    cbn [List.length] in *. lia.
Qed.

Lemma length_filter_both {A} (p : A -> bool) l :
  (List.length (filter (fun x => negb (p x)) l) + List.length (filter p l)
   = List.length l)%nat.
Proof.
  induction l as [|x l IH]; [reflexivity|].
  simpl. destruct (p x); simpl; lia.
Qed.

(** X10: a key string with plus signs whose names all resolve parses to one
    keycode per field: primaries and modifiers together number one more than
    the plus signs, so an empty field (a doubled, leading or trailing plus
    sign) is a name to resolve like any other. *)
Theorem parse_key_string_one_code_per_field :
  forall (string_to_keysym : string -> Z) (keysym_to_keycode : Z -> Z) key,
    contains_char "+" key = true -> key <> "+" ->
    Forall (fun tok => string_to_keysym (converted (token_key tok)) <> 0)
           (split "+" key) ->
    exists primaries mods,
      _parse_key_string string_to_keysym keysym_to_keycode key
      = Ok (primaries, mods) /\
      (List.length primaries + List.length mods = 1 + count_char "+" key)%nat.
Proof.
  intros s2k k2c key Hplus Hne Hres.
  unfold _parse_key_string. rewrite Hplus.
  destruct (String.eqb_spec key "+") as [|_]; [contradiction|]. cbn [negb orb].
  rewrite (parse_parts_resolved s2k k2c _ Hres). cbn [app].
  eexists. eexists. split; [reflexivity|].
  rewrite !length_map, length_filter_both, length_split. lia.
Qed.

Lemma parse_key_string_one_code_per_field_witness :
  exists primaries mods,
    _parse_key_string Sample.string_to_keysym Sample.keysym_to_keycode
                      "control+a+shift+b"
    = Ok (primaries, mods) /\
    (List.length primaries + List.length mods
     = 1 + count_char "+" "control+a+shift+b")%nat.
Proof.
  apply (parse_key_string_one_code_per_field
           Sample.string_to_keysym Sample.keysym_to_keycode "control+a+shift+b").
  - reflexivity.
  - discriminate.
  - repeat constructor; discriminate.
Defined.

Lemma send_keys_stops_at_failure_witness :
  send_keys Sample.string_to_keysym Sample.keysym_to_keycode
            Sample.win (["a"] ++ "shift+Bogus" :: ["b"]) []
  = (Raise (mkExn "Exception" "NoSymbol found for character: Bogus"),
     [] ++ flat_map (fun pm => send_key_log Sample.win (fst pm) (snd pm) 1 0)
                    [([38], [])]).
Proof.
  apply (send_keys_stops_at_failure
           Sample.string_to_keysym Sample.keysym_to_keycode
           Sample.win ["a"] [([38], [])] "shift+Bogus" ["b"]).
  - exact Sample_keycodes_fit.
  - repeat constructor.
  - reflexivity.
Defined.






(** ** The command line *)

Lemma string_length_append s1 s2 :
  String.length (String.append s1 s2) = (String.length s1 + String.length s2)%nat.
Proof. induction s1 as [|c s1 IH]; simpl; [reflexivity | now rewrite IH]. Qed.

Lemma length_str_mul s n :
  String.length (str_mul s n) = (Z.to_nat n * String.length s)%nat.
Proof.
  unfold str_mul. induction (Z.to_nat n) as [|k IH]; [reflexivity|].
  cbn [List.repeat String.concat]. destruct (List.repeat s k) as [|s' rest] eqn:Hrep.
  - destruct k; [simpl; lia | discriminate].
  - rewrite !string_length_append, IH. simpl. lia.
Qed.

Lemma print_each_lines {A} (line : A -> string) items out :
  print_each items (fun item => print (line item)) out
  = (Ok tt, out ++ map line items).
Proof.
  revert out. induction items as [|item items IH]; intro out; simpl.
  - now rewrite app_nil_r.
  - unfold obind, print. rewrite IH. now rewrite <- app_assoc.
Qed.

Lemma eq_str_false value literal : value <> Some literal -> eq_str value literal = false.
Proof.
  destruct value as [s|]; [|reflexivity]. simpl. intro H.
  destruct (String.eqb_spec s literal); [subst; contradiction | reflexivity].
Qed.

Section MainFacts.

Variable str_window : Window -> string.
Variable Geometry : Type.
Variable str_geometry : Geometry -> string.
Variable windows : list (Window * Z) * option exn.
Variable find_window :
  option string -> option string -> option string -> option string -> result Window.
Variable get_geometry : Window -> result Geometry.

(** X13: the enumerate command prints one text per window that [windows()]
    yields, in the order yielded, and returns 0, or passes on the exception
    that ended the iteration after printing what came before it.  Each text
    is the window preceded by two spaces per level and one separating space;
    a level of zero or less gives the single space. *)
Theorem main_enumerate :
  forall args out,
    args_command args = Some "enumerate" ->
    main str_window Geometry str_geometry windows find_window get_geometry args out
    = (match snd windows with
       | None => Ok 0
       | Some e => Raise e
       end,
       out ++ map (enumerate_line str_window) (fst windows)) /\
    (forall window level,
       String.length (enumerate_line str_window (window, level))
       = (2 * Z.to_nat level + 1 + String.length (str_window window))%nat).
Proof.
  intros args out Hcmd. split.
  - unfold main. rewrite Hcmd. cbn [eq_str String.eqb Ascii.eqb Bool.eqb].
    unfold obind. rewrite print_each_lines.
    destruct (snd windows); reflexivity.
  - intros window level. unfold enumerate_line. cbn [fst snd].
    rewrite !string_length_append, length_str_mul. simpl. lia.
Qed.

(** X14: a command that is none of enumerate, find and geometry, or no
    command at all, prints nothing and returns 0, without looking at any
    window. *)
Theorem main_other_command :
  forall args out,
    args_command args <> Some "enumerate" ->
    args_command args <> Some "find" ->
    args_command args <> Some "geometry" ->
    main str_window Geometry str_geometry windows find_window get_geometry args out
    = (Ok 0, out).
Proof.
  intros args out He Hf Hg. unfold main.
  now rewrite (eq_str_false _ _ He), (eq_str_false _ _ Hf), (eq_str_false _ _ Hg).
Qed.

(** X15: the find and geometry commands pass the four filters unchanged to
    [find_window]; when the window is found they print one text, the window
    or its geometry, and return 0; when [find_window] or [get_geometry]
    raises, the exception goes to the caller and nothing is printed. *)
Theorem main_find_geometry :
  forall args out,
    args_command args = Some "find" \/ args_command args = Some "geometry" ->
    let found :=
      find_window (args_window_id args) (args_window_name args)
                  (args_class_type args) (args_class_name args) in
    let call :=
      main str_window Geometry str_geometry windows find_window get_geometry
           args out in
    (forall e, found = Raise e -> call = (Raise e, out)) /\
    (forall window,
       found = Ok window ->
       (args_command args = Some "find" ->
        call = (Ok 0, out ++ [str_window window])) /\
       (args_command args = Some "geometry" ->
        (forall geometry, get_geometry window = Ok geometry ->
                          call = (Ok 0, out ++ [str_geometry geometry])) /\
        (forall e, get_geometry window = Raise e -> call = (Raise e, out)))).
Proof.
  intros args out Hcmd found call. subst found call. unfold main.
  split.
  - intros e He. destruct Hcmd as [-> | ->]; simpl; unfold obind; now rewrite He.
  - intros window Hw. split.
    + intros ->. simpl. unfold obind. rewrite Hw. reflexivity.
    + intros ->. simpl. unfold obind. rewrite Hw. split.
      * intros geometry ->. reflexivity.
      * intros e ->. reflexivity.
Qed.

End MainFacts.

Lemma main_enumerate_witness :
  main SampleMain.str_window (Z * Z) SampleMain.str_geometry SampleMain.windows
       SampleMain.find_window SampleMain.get_geometry
       (SampleMain.args "enumerate" None) []
  = (Ok 0, [] ++ [" <Window 0x00000001>"; "     <Window 0x00000002>"]).
Proof.
  apply (main_enumerate SampleMain.str_window (Z * Z) SampleMain.str_geometry
           SampleMain.windows SampleMain.find_window SampleMain.get_geometry
           (SampleMain.args "enumerate" None) []).
  reflexivity.
Defined.

Lemma main_other_command_witness :
  main SampleMain.str_window (Z * Z) SampleMain.str_geometry SampleMain.windows
       SampleMain.find_window SampleMain.get_geometry
       (SampleMain.args "list" None) ["earlier output"]
  = (Ok 0, ["earlier output"]).
Proof.
  apply (main_other_command SampleMain.str_window (Z * Z) SampleMain.str_geometry
           SampleMain.windows SampleMain.find_window SampleMain.get_geometry
           (SampleMain.args "list" None) ["earlier output"]); discriminate.
Defined.

Lemma main_find_geometry_witness :
  main SampleMain.str_window (Z * Z) SampleMain.str_geometry SampleMain.windows
       SampleMain.find_window SampleMain.get_geometry
       (SampleMain.args "geometry" (Some "xterm")) []
  = (Ok 0, [] ++ ["<geometry>"]) /\
  main SampleMain.str_window (Z * Z) SampleMain.str_geometry SampleMain.windows
       SampleMain.find_window SampleMain.get_geometry
       (SampleMain.args "find" (Some "nothing")) []
  = (Raise (mkExn "Exception" "window not found"), []).
Proof.
  destruct (main_find_geometry SampleMain.str_window (Z * Z) SampleMain.str_geometry
              SampleMain.windows SampleMain.find_window SampleMain.get_geometry
              (SampleMain.args "geometry" (Some "xterm")) [] (or_intror eq_refl))
    as [_ Hfound].
  destruct (main_find_geometry SampleMain.str_window (Z * Z) SampleMain.str_geometry
              SampleMain.windows SampleMain.find_window SampleMain.get_geometry
              (SampleMain.args "find" (Some "nothing")) [] (or_introl eq_refl))
    as [Hraise _].
  split.
  - destruct (Hfound Sample.win eq_refl) as [_ Hgeometry].
    destruct (Hgeometry eq_refl) as [Hprint _].
    apply (Hprint (640, 480)). reflexivity.
  - apply Hraise. reflexivity.
Defined.

(** ** An invariant of the log *)

Lemma Delivered_app t u : Delivered t -> Delivered u -> Delivered (t ++ u).
Proof.
  intros Ht Hu. induction Ht; simpl; [assumption | | |]; now constructor.
Qed.

Lemma keeps_ret {A} P (a : A) : keeps P (ret a).
Proof. intros t Ht. exact Ht. Qed.

Lemma keeps_lift {A} P (r : result A) : keeps P (lift r).
Proof. intros t Ht. exact Ht. Qed.

Lemma keeps_bind {A B} P (m : M A) (k : A -> M B) :
  keeps P m -> (forall a, keeps P (k a)) -> keeps P (bind m k).
Proof.
  intros Hm Hk t Ht. unfold bind. specialize (Hm t Ht).
  destruct (m t) as [[a|e] t']; cbn [snd] in *; [now apply Hk | assumption].
Qed.

Lemma keeps_for_each {A B} P (body : A -> M B) xs :
  (forall x, keeps P (body x)) -> keeps P (for_each xs body).
Proof.
  intro Hbody. induction xs as [|x xs IH]; simpl.
  - apply keeps_ret.
  - apply keeps_bind; [apply Hbody | intros _; exact IH].
Qed.

Lemma new_event_window c ty k time root w child rx ry x y m ss e :
  new_event c ty k time root w child rx ry x y m ss = Ok e -> ev_window e = w.
Proof.
  unfold new_event.
  match goal with |- context [if ?b then _ else _] => destruct b end;
    [intros [= <-]; reflexivity | discriminate].
Qed.

Lemma keeps_send_event w c ty k x y m :
  keeps Delivered (send_event w c ty k x y m).
Proof.
  intros t Ht. unfold send_event, bind, lift.
  destruct (new_event c ty k X.CurrentTime X.NONE w X.NONE 0 0 x y m 1)
    as [e|err] eqn:Hnew; cbn [snd]; [|assumption].
  unfold emit. cbn [snd]. rewrite <- app_assoc.
  apply Delivered_app; [assumption|].
  constructor; [exact (new_event_window _ _ _ _ _ _ _ _ _ _ _ _ _ _ Hnew) | constructor].
Qed.

Lemma keeps_sleep ms : keeps Delivered (sleep ms).
Proof.
  intros t Ht. unfold sleep, emit. cbn [snd].
  apply Delivered_app; [assumption|]. now repeat constructor.
Qed.

Lemma keeps_click w x y code : keeps Delivered (click w x y code).
Proof.
  unfold click, mouse_move, mouse_down, mouse_up.
  repeat (apply keeps_bind; [first [apply keeps_send_event | apply keeps_sleep]
                            | intros _]).
  apply keeps_ret.
Qed.

(** X16: the mouse composers keep the log well delivered: after [click],
    [click_left], [click_right], [scroll_up] or [scroll_down], for any
    arguments, every event in the log is still addressed to the window it
    names and followed at once by a flush of that window's display. *)
Theorem mouse_composers_flush_every_event :
  forall window x y code repeat t,
    Delivered t ->
    Delivered (snd (click window x y code t)) /\
    Delivered (snd (click_left window x y t)) /\
    Delivered (snd (click_right window x y t)) /\
    Delivered (snd (scroll_up window x y repeat t)) /\
    Delivered (snd (scroll_down window x y repeat t)).
Proof.
  intros window x y code repeat t Ht.
  assert (Hscroll : forall c,
            keeps Delivered
              (bind (mouse_move window x y) (fun _ =>
               bind (for_each (range repeat) (fun _ => click window x y c)) (fun _ =>
               ret repeat)))).
  { intro c. apply keeps_bind; [apply keeps_send_event | intros _].
    apply keeps_bind; [|intros _; apply keeps_ret].
    apply keeps_for_each. intros _. apply keeps_click. }
  repeat split.
  - now apply keeps_click.
  - now apply keeps_click.
  - now apply keeps_click.
  - now apply (Hscroll MOUSE_SCROLL_UP).
  - now apply (Hscroll MOUSE_SCROLL_DOWN).
Qed.

Lemma mouse_composers_flush_every_event_witness :
  Delivered (snd (scroll_up Sample.win 10 20 2
                    (sent Sample.other_win (motion_event Sample.other_win 0 0)))).
Proof.
  apply (mouse_composers_flush_every_event Sample.win 10 20 MOUSE_LEFT 2
           (sent Sample.other_win (motion_event Sample.other_win 0 0))).
  repeat constructor.
Defined.

Lemma keeps_send_key (string_to_keysym : string -> Z) (keysym_to_keycode : Z -> Z)
    w key repeat modifiers :
  keeps Delivered (send_key string_to_keysym keysym_to_keycode w key repeat modifiers).
Proof.
  unfold send_key. apply keeps_bind; [apply keeps_lift|]. intros [primaries mods].
  apply keeps_bind.
  { apply keeps_for_each. intro keycode.
    apply keeps_bind; [apply keeps_send_event | intros _; apply keeps_sleep]. }
  intros _. apply keeps_bind.
  { apply keeps_for_each. intros _. apply keeps_for_each. intro keycode.
    apply keeps_bind; [apply keeps_send_event | intros _].
    apply keeps_bind; [apply keeps_sleep | intros _].
    apply keeps_bind; [apply keeps_send_event | intros _; apply keeps_sleep]. }
  intros _. apply keeps_for_each. intro keycode.
  apply keeps_bind; [apply keeps_send_event | intros _; apply keeps_sleep].
Qed.

(** X17: the key composers keep the log well delivered for every key string,
    whether it parses or not: after [send_key] or [send_keys], completed or
    stopped by an unknown name, every event in the log is addressed to the
    window it names and followed at once by a flush. *)
Theorem key_composers_flush_every_event :
  forall (string_to_keysym : string -> Z) (keysym_to_keycode : Z -> Z)
         window key keys repeat modifiers t,
    Delivered t ->
    Delivered (snd (send_key string_to_keysym keysym_to_keycode
                             window key repeat modifiers t)) /\
    Delivered (snd (send_keys string_to_keysym keysym_to_keycode window keys t)).
Proof.
  intros s2k k2c window key keys repeat modifiers t Ht. split.
  - now apply keeps_send_key.
  - revert t Ht. unfold send_keys.
    apply keeps_bind; [|intros _; apply keeps_ret].
    apply keeps_for_each. intro k. apply keeps_send_key.
Qed.

Lemma key_composers_flush_every_event_witness :
  Delivered (snd (send_keys Sample.string_to_keysym Sample.keysym_to_keycode
                            Sample.win ["shift+a"; "Bogus"; "b"] [])).
Proof.
  apply (key_composers_flush_every_event
           Sample.string_to_keysym Sample.keysym_to_keycode
           Sample.win "a" ["shift+a"; "Bogus"; "b"] 1 0 []).
  constructor.
Defined.

(** X18: a key-hold scope keeps the log well delivered whenever its block
    does, for every key name, resolved or not, and on both exits of the
    block. *)
Theorem KeyPressed_keeps_delivery :
  forall (string_to_keysym : string -> Z) (keysym_to_keycode : Z -> Z)
         window key (body : M unit),
    keeps Delivered body ->
    keeps Delivered
          (with_KeyPressed string_to_keysym keysym_to_keycode window key body).
Proof.
  intros s2k k2c window key body Hbody.
  unfold with_KeyPressed. apply keeps_bind; [apply keeps_lift|]. intro cm.
  unfold with_stmt, KeyPressed__enter__, KeyPressed__exit__.
  apply keeps_bind; [apply keeps_send_event|]. intros _ t Ht.
  specialize (Hbody t Ht).
  destruct (body t) as [[u|e] t1]; cbn [snd] in Hbody.
  - revert t1 Hbody. apply keeps_bind; [|intros _; apply keeps_ret].
    apply keeps_bind; [apply keeps_send_event | intros _; apply keeps_ret].
  - revert t1 Hbody. apply keeps_bind.
    + apply keeps_bind; [apply keeps_send_event | intros _; apply keeps_ret].
    + intros []; [apply keeps_ret | intros t' Ht'; exact Ht'].
Qed.

Lemma KeyPressed_keeps_delivery_witness :
  keeps Delivered
        (with_KeyPressed Sample.string_to_keysym Sample.keysym_to_keycode
                         Sample.win "Shift_L" Sample.failing_body).
Proof.
  apply (KeyPressed_keeps_delivery Sample.string_to_keysym Sample.keysym_to_keycode
           Sample.win "Shift_L" Sample.failing_body).
  unfold Sample.failing_body.
  apply keeps_bind; [apply keeps_send_event|]. intros _ t Ht. exact Ht.
Defined.

(** ** Values that do not fit *)

Lemma mouse_move_raise w x y t :
  fits_int16 x && fits_int16 y = false ->
  mouse_move w x y t = (Raise struct_error, t).
Proof.
  intro H. unfold mouse_move. apply send_event_raise.
  destruct (fits_int16 x), (fits_int16 y); try discriminate H; reflexivity.
Qed.

(** X19: a coordinate that does not fit INT16 makes [click], [scroll_up]
    and [scroll_down] raise [struct.error] at their first pointer move,
    with nothing sent.  With coordinates that fit and a button code that
    does not fit CARD8, [click] has sent the pointer move when the press
    raises: the move stays in the log, no press and no release follow. *)
Theorem click_out_of_range :
  forall window x y code repeat t,
    (fits_int16 x && fits_int16 y = false ->
     click window x y code t = (Raise struct_error, t) /\
     scroll_up window x y repeat t = (Raise struct_error, t) /\
     scroll_down window x y repeat t = (Raise struct_error, t)) /\
    (fits_int16 x = true -> fits_int16 y = true -> fits_card8 code = false ->
     click window x y code t
     = (Raise struct_error, t ++ sent window (motion_event window x y))).
Proof.
  intros window x y code repeat t. split.
  - intro H. unfold click, scroll_up, scroll_down, bind.
    rewrite (mouse_move_raise window x y t H). repeat split.
  - intros Hx Hy Hc. unfold click. unfold bind at 1.
    unfold mouse_move.
    rewrite (says_send_event window event.MotionNotify X.MotionNotify X.NotifyNormal
               x y 0 eq_refl Hx Hy eq_refl t).
    unfold bind at 1. unfold mouse_down.
    rewrite send_event_raise; [reflexivity|]. now rewrite Hc.
Qed.

Lemma click_out_of_range_witness :
  click Sample.win 40000 20 MOUSE_LEFT [] = (Raise struct_error, []) /\
  click Sample.win 10 20 256 []
  = (Raise struct_error, [] ++ sent Sample.win (motion_event Sample.win 10 20)).
Proof.
  destruct (click_out_of_range Sample.win 40000 20 MOUSE_LEFT 1 []) as [Hmove _].
  destruct (click_out_of_range Sample.win 10 20 256 1 []) as [_ Hpress].
  split.
  - apply Hmove. reflexivity.
  - apply Hpress; reflexivity.
Defined.
